(** * Tellama: message intake, rolling history and response post-processing

    A shallow embedding of [src/tellama/database_manager.py] and of
    [Tellama.handle_message] in [src/tellama/tellama.py].

    - Python [str] values are sequences of Unicode code points ([list N]).
    - Every SQLite table is the list of its rows in rowid order, which is the
      order of a table scan; rowids come from [AUTOINCREMENT].  Integers are
      [Z]; the values bound to a statement are taken to fit SQLite's INTEGER,
      and the text columns the code reads to hold text, not [NULL].
    - [handle_message] runs in a state-and-exception monad over a [World]
      (database, operation counter, trace of the effects that happened); an
      oracle in the environment says which external operation raises, and
      whether what an awaited call raises is an [Exception] or, like
      [asyncio.CancelledError], only a [BaseException].  An operation that
      raises has no effect.  Logging is left out. *)

From Stdlib Require Import String Ascii Bool Arith ZArith NArith Lia List Sorted.
Import ListNotations.

(** ** Python strings *)

Module PyStr.

Definition char := N.
Definition str := list char.

(** A literal of the source, written as a Rocq string of ASCII characters. *)
Definition lit (s : string) : str := map N_of_ascii (list_ascii_of_string s).

Definition char_eqb (a b : char) : bool := N.eqb a b.

Fixpoint str_eqb (a b : str) : bool :=
  match a, b with
  | [], [] => true
  | x :: a', y :: b' => char_eqb x y && str_eqb a' b'
  | _, _ => false
  end.

(** [str.isspace] on one code point (CPython's [_PyUnicode_IsWhitespace]):
    U+0009..U+000D, U+001C..U+0020, U+0085, U+00A0, U+1680, U+2000..U+200A,
    U+2028, U+2029, U+202F, U+205F, U+3000. *)
Definition is_space (c : char) : bool :=
  (((9 <=? c) && (c <=? 13)) || ((28 <=? c) && (c <=? 32))
  || (c =? 133) || (c =? 160) || (c =? 5760)
  || ((8192 <=? c) && (c <=? 8202))
  || (c =? 8232) || (c =? 8233) || (c =? 8239) || (c =? 8287)
  || (c =? 12288))%N.

Fixpoint lstrip (s : str) : str :=
  match s with
  | [] => []
  | c :: s' => if is_space c then lstrip s' else s
  end.

Definition rstrip (s : str) : str := rev (lstrip (rev s)).

(** [s.strip()] *)
Definition strip (s : str) : str := rstrip (lstrip s).

(** [s.startswith(p)] *)
Fixpoint startswith (s p : str) {struct p} : bool :=
  match p, s with
  | [], _ => true
  | _ :: _, [] => false
  | x :: p', y :: s' => char_eqb x y && startswith s' p'
  end.

(** [s.find(sub)], [None] standing for -1. *)
Fixpoint find (s sub : str) : option nat :=
  if startswith s sub then Some 0%nat
  else match s with
       | [] => None
       | _ :: s' => option_map S (find s' sub)
       end.

(** [sub in s] *)
Definition contains (sub s : str) : bool :=
  match find s sub with Some _ => true | None => false end.

(** [s.split(sep)] for a non-empty [sep]: cut at the leftmost occurrence and
    go on with what follows it.  Every cut consumes at least one character,
    so [length s] rounds are enough. *)
Fixpoint split_fuel (fuel : nat) (s sep : str) : list str :=
  match fuel with
  | O => [s]
  | S fuel' =>
      match find s sep with
      | None => [s]
      | Some i => firstn i s :: split_fuel fuel' (skipn (i + length sep) s) sep
      end
  end.

Definition split (s sep : str) : list str := split_fuel (length s) s sep.

(** [l[-1]] on a list that is never empty here. *)
Definition last_piece (l : list str) : str := last l [].

(** [sub] occurs in [s] at index [i]. *)
Definition occurs_at (sub s : str) (i : nat) : Prop :=
  startswith (skipn i s) sub = true.

(** [i] is the index of the last occurrence of [sub] in [s]. *)
Definition last_occurrence (sub s : str) (i : nat) : Prop :=
  occurs_at sub s i /\ forall j, (i < j)%nat -> ~ occurs_at sub s j.

End PyStr.
Import PyStr.

(** ** Response post-processing ([handle_message], lines 146-155) *)

Definition THINK_CLOSE : str := Eval cbv in lit "</think>".
Definition SKIP_TOKEN : str := Eval cbv in lit "<skip>".

Inductive PostResult :=
| Skip
| Answer (text : str).

(** Lines 150-151: drop the reasoning block. *)
Definition remove_think (answer : str) : str :=
  if contains THINK_CLOSE answer
  then strip (last_piece (split answer THINK_CLOSE))
  else answer.

Definition postprocess (content : str) : PostResult :=
  let answer := strip content in
  let answer := remove_think answer in
  if str_eqb answer SKIP_TOKEN then Skip else Answer answer.

(** ** The persistence store ([database_manager.py]) *)

Module DatabaseManager.

Local Open Scope Z_scope.

(** The default fallback instructions for the bot. *)
Definition DEFAULT_INSTRUCTIONS : str := lit "<instructions>
- Your name is Tellama.
- You are an AI chatbot built by @K4YT3X for Telegram group chats.
- You should not engage in any harmful, illegal, or unethical conversations.
- You should be polite, respectful, and helpful to all users.
- You should obey laws, morals, and ethics.
- Contents between `<instructions></instructions>` are instructions for you to follow.
- Contents after `<instructions></instructions>` are messages from users in the chat.
- User messages are in the format of `<nickname>: <message>`.
- Your responses should be text-only, without any tags or identifiers.
</instructions>".

(** Rows of the five tables of [_create_tables].  The only constraint any of
    them declares is [id INTEGER PRIMARY KEY AUTOINCREMENT].  [NULL] is
    modelled where the code asks for it ([chat_instructions.chat_id]). *)
Record SettingRow := {
  s_id : Z; s_setting : str; s_value : str }.

Record HistoryRow := {
  h_id : Z; h_timestamp : str; h_chat_id : Z; h_chat_name : str;
  h_user_id : Z; h_full_name : str; h_message : str }.

Record GroupRow := {
  g_id : Z; g_chat_id : Z; g_chat_name : str }.

Record UserRow := {
  u_id : Z; u_user_id : Z; u_user_name : str }.

Record InstructionRow := {
  i_id : Z; i_chat_id : option Z; i_instructions : str }.

(** A table is the list of its rows in rowid order. *)
Record Database := {
  tellama_settings : list SettingRow;
  conversation_history : list HistoryRow;
  allowed_groups : list GroupRow;
  allowed_users : list UserRow;
  chat_instructions : list InstructionRow }.

Definition empty_database : Database :=
  {| tellama_settings := []; conversation_history := [];
     allowed_groups := []; allowed_users := []; chat_instructions := [] |}.

(** [CREATE TABLE IF NOT EXISTS] five times: a new file gets five empty
    tables, an existing one is left as it is. *)
Definition _create_tables (file : option Database) : Database :=
  match file with
  | Some db => db
  | None => empty_database
  end.

(** The rowid [AUTOINCREMENT] gives to the next inserted row: one more than
    the largest rowid of the table, 1 in an empty table. *)
Definition next_rowid (ids : list Z) : Z := 1 + fold_right Z.max 0 ids.

(** [cursor.fetchone()] *)
Definition fetchone {A} (rows : list A) : option A := hd_error rows.

(** [LIMIT n]: a negative [n] means no limit in SQLite. *)
Definition sql_limit {A} (n : Z) (rows : list A) : list A :=
  if n <? 0 then rows else firstn (Z.to_nat n) rows.

(** [ORDER BY id DESC] *)
Fixpoint insert_desc (r : HistoryRow) (sorted : list HistoryRow) : list HistoryRow :=
  match sorted with
  | [] => [r]
  | x :: rest => if h_id x <=? h_id r then r :: sorted else x :: insert_desc r rest
  end.

Fixpoint order_by_id_desc (rows : list HistoryRow) : list HistoryRow :=
  match rows with
  | [] => []
  | r :: rest => insert_desc r (order_by_id_desc rest)
  end.

Definition get_setting (setting : str) (db : Database) : option str :=
  let row :=
    fetchone (map s_value
                (filter (fun r => str_eqb (s_setting r) setting)
                        (tellama_settings db))) in
  match row with
  | Some value => Some value
  | None => None
  end.

(** [INSERT OR REPLACE INTO tellama_settings (setting, value)]: the new row
    takes the next rowid; [OR REPLACE] first deletes the rows that clash with
    it on a uniqueness constraint, and [id] is the only one declared. *)
Definition set_setting (setting value : str) (db : Database) : Database :=
  let rows := tellama_settings db in
  let id := next_rowid (map s_id rows) in
  let kept := filter (fun r => negb (s_id r =? id)) rows in
  {| tellama_settings :=
       kept ++ [{| s_id := id; s_setting := setting; s_value := value |}];
     conversation_history := conversation_history db;
     allowed_groups := allowed_groups db;
     allowed_users := allowed_users db;
     chat_instructions := chat_instructions db |}.

Definition is_group_allowed (chat_id : Z) (db : Database) : bool :=
  let row :=
    fetchone (map g_chat_id
                (filter (fun r => g_chat_id r =? chat_id) (allowed_groups db))) in
  match row with Some _ => true | None => false end.

Definition is_user_allowed (user_id : Z) (db : Database) : bool :=
  let row :=
    fetchone (map u_user_id
                (filter (fun r => u_user_id r =? user_id) (allowed_users db))) in
  match row with Some _ => true | None => false end.

(** [utc_time] is the value of [datetime.now(timezone.utc).isoformat()]. *)
Definition store_message (utc_time : str) (chat_id : Z) (chat_name : str)
    (user_id : Z) (full_name message_text : str) (db : Database) : Database :=
  let rows := conversation_history db in
  {| tellama_settings := tellama_settings db;
     conversation_history :=
       rows ++ [{| h_id := next_rowid (map h_id rows);
                   h_timestamp := utc_time; h_chat_id := chat_id;
                   h_chat_name := chat_name; h_user_id := user_id;
                   h_full_name := full_name; h_message := message_text |}];
     allowed_groups := allowed_groups db;
     allowed_users := allowed_users db;
     chat_instructions := chat_instructions db |}.

(** One dictionary of the list [get_conversation_history] returns. *)
Record HistoryEntry := {
  timestamp : str; chat_id : Z; chat_name : str;
  user_id : Z; full_name : str; message : str }.

Definition select_history_columns (r : HistoryRow) : str * str * Z * str * str :=
  (h_timestamp r, h_chat_name r, h_user_id r, h_full_name r, h_message r).

Definition history_dict (chat : Z) (row : str * str * Z * str * str) : HistoryEntry :=
  let '(ts, grp_name, uid, fname, msg) := row in
  {| timestamp := ts; chat_id := chat; chat_name := grp_name;
     user_id := uid; full_name := fname; message := msg |}.

Definition get_conversation_history (chat : Z) (limit : Z) (db : Database)
  : list HistoryEntry :=
  let rows :=
    map select_history_columns
      (sql_limit limit
         (order_by_id_desc
            (filter (fun r => h_chat_id r =? chat) (conversation_history db)))) in
  (* rows are returned in descending order; reverse for chronological order *)
  let rows := rev rows in
  map (history_dict chat) rows.

Definition _get_default_instructions (db : Database) : str :=
  let row :=
    fetchone (map i_instructions
                (filter (fun r => match i_chat_id r with None => true | Some _ => false end)
                        (chat_instructions db))) in
  match row with
  | Some instructions => instructions
  | None => DEFAULT_INSTRUCTIONS
  end.

Definition fetch_instructions_for_group (chat : Z) (db : Database) : str :=
  let row :=
    fetchone (map i_instructions
                (filter (fun r => match i_chat_id r with
                                  | Some c => c =? chat
                                  | None => false
                                  end)
                        (chat_instructions db))) in
  match row with
  | Some instructions => instructions
  | None => _get_default_instructions db
  end.

(** *** Vocabulary for the properties of the history table *)

(** SQLite keeps a table in rowid order: the rowids of the list increase. *)
Definition rowid_order (rows : list HistoryRow) : Prop :=
  StronglySorted Z.lt (map h_id rows).

(** The rows stored for a chat, oldest first. *)
Definition rows_of_chat (chat : Z) (db : Database) : list HistoryRow :=
  filter (fun r => h_chat_id r =? chat) (conversation_history db).

(** A row read back with its fields unchanged. *)
Definition entry_of_row (r : HistoryRow) : HistoryEntry :=
  {| timestamp := h_timestamp r; chat_id := h_chat_id r;
     chat_name := h_chat_name r; user_id := h_user_id r;
     full_name := h_full_name r; message := h_message r |}.

(** A run of [store_message] calls for one chat; each entry carries the
    arguments of its call and the clock reading it was stamped with. *)
Definition store_messages (chat : Z) (sent : list HistoryEntry) (db : Database)
  : Database :=
  fold_left
    (fun d e => store_message (timestamp e) chat (chat_name e) (user_id e)
                  (full_name e) (message e) d)
    sent db.

(** The same entry filed under the chat it is stored for. *)
Definition filed_under (chat : Z) (e : HistoryEntry) : HistoryEntry :=
  {| timestamp := timestamp e; chat_id := chat; chat_name := chat_name e;
     user_id := user_id e; full_name := full_name e; message := message e |}.

Definition count_setting (setting : str) (db : Database) : nat :=
  length (filter (fun r => str_eqb (s_setting r) setting) (tellama_settings db)).

End DatabaseManager.

(** ** What the transport delivers ([telegram.Update] and friends) *)

Module Telegram.

Inductive ChatType := PRIVATE | GROUP | SUPERGROUP | CHANNEL.

Definition ChatType_eqb (a b : ChatType) : bool :=
  match a, b with
  | PRIVATE, PRIVATE | GROUP, GROUP
  | SUPERGROUP, SUPERGROUP | CHANNEL, CHANNEL => true
  | _, _ => false
  end.

Record Chat := { c_id : Z; c_type : ChatType; c_title : option str }.

Record User := { usr_id : Z; usr_full_name : str }.

Record Message := { text : option str; from_user : option User }.

Record Update := {
  effective_chat : option Chat;
  effective_message : option Message }.

(** [application.bot]: its id and handle, and the names [get_me()] reports. *)
Record Bot := {
  bot_id : Z; bot_username : str;
  bot_first_name : str; bot_last_name : option str }.

End Telegram.
Import Telegram.

(** One turn of the sequence handed to the inference backend:
    [{"role": ..., "content": ...}]. *)
Record RoleMessage := { role : str; content : str }.

Definition ROLE_USER : str := Eval cbv in lit "user".
Definition ROLE_ASSISTANT : str := Eval cbv in lit "assistant".

(** ** Effects *)

(** The external operations [handle_message] performs, as they appear in the
    trace once they have succeeded. *)
Inductive Event :=
| DbIsUserAllowed (user : Z)
| DbIsGroupAllowed (chat : Z)
| DbGetSetting (setting : str)
| DbGetHistory (chat limit : Z)
| DbStoreMessage (chat user : Z) (message_text : str)
| DbFetchInstructions (chat : Z)
| OllamaChat (messages : list RoleMessage)
| ReplyText (reply : str)
| GetMe.

Record World := {
  db : DatabaseManager.Database;
  clock : nat;              (* external operations attempted so far *)
  trace : list Event }.

(** What [Tellama.__init__] fixes and what the outside world decides:
    - [raises n]: the [n]-th external operation raises instead of taking effect;
    - [cancels n]: if the [n]-th operation is an awaited call and raises, what
      it raises is not an [Exception] but another [BaseException], as
      [asyncio.CancelledError] is; the synchronous [sqlite3] calls raise
      [Exception]s only;
    - [ollama_content msgs]: [response["message"]["content"]] of a chat call;
    - [utc_now n]: the clock reading of the [n]-th operation;
    - [lower]: [str.lower]. *)
Record Env := {
  bot : Bot;
  history_limit : Z;
  lower : str -> str;
  raises : nat -> bool;
  cancels : nat -> bool;
  ollama_content : list RoleMessage -> str;
  utc_now : nat -> str }.

(** How a computation ends: normally, with an exception derived from
    [Exception] ([Raised]), or with a [BaseException] that is not an
    [Exception] ([Cancelled]). *)
Inductive Result (A : Type) :=
| Ok (a : A)
| Raised
| Cancelled.
Arguments Ok {A} a.
Arguments Raised {A}.
Arguments Cancelled {A}.

Definition M (A : Type) := World -> Result A * World.

Definition ret {A} (a : A) : M A := fun w => (Ok a, w).

Definition bind {A B} (m : M A) (k : A -> M B) : M B :=
  fun w => match m w with
           | (Ok a, w') => k a w'
           | (Raised, w') => (Raised, w')
           | (Cancelled, w') => (Cancelled, w')
           end.

(** [try: body except Exception: handler]: only an [Exception] reaches the
    handler, any other [BaseException] passes through. *)
Definition try_except {A} (body handler : M A) : M A :=
  fun w => match body w with
           | (Ok a, w') => (Ok a, w')
           | (Raised, w') => handler w'
           | (Cancelled, w') => (Cancelled, w')
           end.

Notation "x <- m ;; k" := (bind m (fun x => k))
  (at level 61, m at next level, right associativity).
Notation "m ;;; k" := (bind m (fun _ => k))
  (at level 61, right associativity).

(** A synchronous external operation: it raises (an [Exception]) when the
    oracle says so and then leaves database and trace alone; otherwise it acts
    on the database and is logged. *)
Definition external {A} (env : Env) (ev : Event)
    (act : nat -> DatabaseManager.Database -> A * DatabaseManager.Database) : M A :=
  fun w =>
    let n := clock w in
    if raises env n
    then (Raised, {| db := db w; clock := S n; trace := trace w |})
    else let (a, d) := act n (db w) in
         (Ok a, {| db := d; clock := S n; trace := trace w ++ [ev] |}).

(** An awaited external operation ([await ...]): as above, but what it raises
    may also be a cancellation. *)
Definition awaited {A} (env : Env) (ev : Event)
    (act : nat -> DatabaseManager.Database -> A * DatabaseManager.Database) : M A :=
  fun w =>
    let n := clock w in
    if raises env n
    then (if cancels env n then Cancelled else Raised,
          {| db := db w; clock := S n; trace := trace w |})
    else let (a, d) := act n (db w) in
         (Ok a, {| db := d; clock := S n; trace := trace w ++ [ev] |}).

Definition db_read {A} (env : Env) (ev : Event)
    (query : DatabaseManager.Database -> A) : M A :=
  external env ev (fun _ d => (query d, d)).

Definition db_store_message (env : Env) (chat : Z) (chat_name : str)
    (user : Z) (full_name message_text : str) : M unit :=
  external env (DbStoreMessage chat user message_text)
    (fun n d => (tt, DatabaseManager.store_message (utc_now env n)
                       chat chat_name user full_name message_text d)).

Definition reply_text (env : Env) (reply : str) : M unit :=
  awaited env (ReplyText reply) (fun _ d => (tt, d)).

Definition ollama_chat (env : Env) (messages : list RoleMessage) : M str :=
  awaited env (OllamaChat messages) (fun _ d => (ollama_content env messages, d)).

Definition get_me (env : Env) : M (str * option str) :=
  awaited env GetMe (fun _ d => ((bot_first_name (bot env), bot_last_name (bot env)), d)).

(** ** [Tellama.handle_message] *)

(** Python truthiness of an optional string. *)
Definition truthy (o : option str) : option str :=
  match o with
  | Some (c :: s) => Some (c :: s)
  | _ => None
  end.

(** [sep.join(parts)] *)
Fixpoint join (sep : str) (parts : list str) : str :=
  match parts with
  | [] => []
  | [p] => p
  | p :: rest => p ++ sep ++ join sep rest
  end.

(** Lines 107-117: the loop that turns history rows into turns. *)
Definition history_turn (env : Env) (hm : DatabaseManager.HistoryEntry) : RoleMessage :=
  if (DatabaseManager.user_id hm =? bot_id (bot env))%Z
  then {| role := ROLE_ASSISTANT; content := DatabaseManager.message hm |}
  else {| role := ROLE_USER;
          content := DatabaseManager.full_name hm ++ lit ": " ++ DatabaseManager.message hm |}.

Definition assemble_context (env : Env)
    (history_messages : list DatabaseManager.HistoryEntry) : list RoleMessage :=
  fold_left (fun messages hm => messages ++ [history_turn env hm])
            history_messages [].

Definition PRIVATE_CHAT_DISALLOWED : str :=
  lit "Sorry, you do not have permission to chat with me.".
Definition INTERNAL_ERROR : str :=
  lit "An internal error occurred while processing your message.".

Definition is_private (chat : Chat) : bool := ChatType_eqb (c_type chat) PRIVATE.

(** Lines 129-131: the message text begins with the bot's handle. *)
Definition mentions_bot (env : Env) (message_text : str) : bool :=
  startswith (lower env message_text) (lit "@" ++ lower env (bot_username (bot env))).

(** Line 136. *)
Definition compose_prompt (instructions : str) (sender : User) (message_text : str) : str :=
  instructions ++ lit (String "010" (String "010" EmptyString))
    ++ usr_full_name sender ++ lit ": " ++ message_text.

(** Lines 103-173, the body of the [try]. *)
Definition pipeline (env : Env) (chat : Chat) (sender : User)
    (message_text chat_name : str) : M unit :=
  history_messages <-
    db_read env (DbGetHistory (c_id chat) (history_limit env))
      (DatabaseManager.get_conversation_history (c_id chat) (history_limit env)) ;;
  let messages := assemble_context env history_messages in
  db_store_message env (c_id chat) chat_name (usr_id sender)
    (usr_full_name sender) message_text ;;;
  if negb (is_private chat) && negb (mentions_bot env message_text)
  then ret tt
  else
    instructions <-
      db_read env (DbFetchInstructions (c_id chat))
        (DatabaseManager.fetch_instructions_for_group (c_id chat)) ;;
    let prompt := compose_prompt instructions sender message_text in
    response <-
      ollama_chat env
        (messages ++ [{| role := ROLE_USER; content := prompt |}]) ;;
    match postprocess response with
    | Skip => ret tt
    | Answer answer =>
        reply_text env answer ;;;
        bot_user <- get_me env ;;
        let bot_full_name :=
          join (lit " ")
            (flat_map (fun part => match truthy part with
                                   | Some p => [p]
                                   | None => []
                                   end)
                      [Some (fst bot_user); snd bot_user]) in
        db_store_message env (c_id chat) chat_name (bot_id (bot env))
          bot_full_name answer
    end.

(** Lines 175-185, the [except Exception] handler. *)
Definition on_error (env : Env) : M unit :=
  internal_error_message <-
    db_read env (DbGetSetting (lit "internal_error_message"))
      (DatabaseManager.get_setting (lit "internal_error_message")) ;;
  reply_text env
    match internal_error_message with
    | Some configured => configured
    | None => INTERNAL_ERROR
    end.

Definition guarded_pipeline (env : Env) (chat : Chat) (sender : User)
    (message_text chat_name : str) : M unit :=
  try_except (pipeline env chat sender message_text chat_name) (on_error env).

Definition handle_message (env : Env) (update : Update) : M unit :=
  match effective_chat update, effective_message update with
  | Some chat, Some message =>
      match truthy (text message) with
      | None => ret tt
      | Some message_text =>
          match from_user message with
          | None => ret tt
          | Some sender =>
              if (usr_id sender =? bot_id (bot env))%Z then ret tt
              else if is_private chat then
                let chat_name := lit "Private Chat with " ++ usr_full_name sender in
                allowed <-
                  db_read env (DbIsUserAllowed (usr_id sender))
                    (DatabaseManager.is_user_allowed (usr_id sender)) ;;
                if negb allowed then
                  configured <-
                    db_read env (DbGetSetting (lit "private_chat_disallowed_message"))
                      (DatabaseManager.get_setting
                         (lit "private_chat_disallowed_message")) ;;
                  reply_text env
                    match configured with
                    | Some private_chat_disallowed_message =>
                        private_chat_disallowed_message
                    | None => PRIVATE_CHAT_DISALLOWED
                    end
                else guarded_pipeline env chat sender message_text chat_name
              else
                let chat_name :=
                  match truthy (c_title chat) with
                  | Some title => title
                  | None => lit "Unknown Chat"
                  end in
                allowed <-
                  db_read env (DbIsGroupAllowed (c_id chat))
                    (DatabaseManager.is_group_allowed (c_id chat)) ;;
                if negb allowed then ret tt
                else guarded_pipeline env chat sender message_text chat_name
          end
      end
  | _, _ => ret tt
  end.

(** Projections of a trace. *)
Definition replies (t : list Event) : list str :=
  flat_map (fun e => match e with ReplyText r => [r] | _ => [] end) t.

Definition inference_calls (t : list Event) : list (list RoleMessage) :=
  flat_map (fun e => match e with OllamaChat m => [m] | _ => [] end) t.

(** ** Vocabulary for the properties of the pipeline *)

(** A well-formed event: a chat, a sender and a message text. *)
Definition text_update (chat : Chat) (sender : User) (message_text : str) : Update :=
  {| effective_chat := Some chat;
     effective_message :=
       Some {| text := Some message_text; from_user := Some sender |} |}.

(** The [chat_name] computed at lines 79 and 96. *)
Definition chat_name_of (chat : Chat) (sender : User) : str :=
  if is_private chat
  then lit "Private Chat with " ++ usr_full_name sender
  else match truthy (c_title chat) with
       | Some title => title
       | None => lit "Unknown Chat"
       end.

(** The check of lines 78-100: the allow-list of users for a private chat,
    of groups for any other chat. *)
Definition authorized (chat : Chat) (sender : User) (d : DatabaseManager.Database) : bool :=
  if is_private chat
  then DatabaseManager.is_user_allowed (usr_id sender) d
  else DatabaseManager.is_group_allowed (c_id chat) d.

Definition auth_event (chat : Chat) (sender : User) : Event :=
  if is_private chat
  then DbIsUserAllowed (usr_id sender)
  else DbIsGroupAllowed (c_id chat).

(** The message passes the mention gate of line 129. *)
Definition addressed (env : Env) (chat : Chat) (message_text : str) : bool :=
  is_private chat || mentions_bot env message_text.

(** No external operation raises. *)
Definition no_raise (env : Env) : Prop := forall n, raises env n = false.

(** The text of the reply to an unauthorized private sender. *)
Definition denial_text (d : DatabaseManager.Database) : str :=
  match DatabaseManager.get_setting (lit "private_chat_disallowed_message") d with
  | Some configured => configured
  | None => PRIVATE_CHAT_DISALLOWED
  end.

(** The text of the reply sent by the [except] handler. *)
Definition error_text (d : DatabaseManager.Database) : str :=
  match DatabaseManager.get_setting (lit "internal_error_message") d with
  | Some configured => configured
  | None => INTERNAL_ERROR
  end.

(** The row the inbound message becomes, stored by operation [n]. *)
Definition inbound_row (env : Env) (chat : Chat) (sender : User)
    (message_text chat_name : str) (n : nat) (d : DatabaseManager.Database)
  : DatabaseManager.HistoryRow :=
  {| DatabaseManager.h_id :=
       DatabaseManager.next_rowid
         (map DatabaseManager.h_id (DatabaseManager.conversation_history d));
     DatabaseManager.h_timestamp := utc_now env n;
     DatabaseManager.h_chat_id := c_id chat;
     DatabaseManager.h_chat_name := chat_name;
     DatabaseManager.h_user_id := usr_id sender;
     DatabaseManager.h_full_name := usr_full_name sender;
     DatabaseManager.h_message := message_text |}.

(** The database once operation [n] has stored the inbound message. *)
Definition with_inbound (env : Env) (chat : Chat) (sender : User)
    (message_text chat_name : str) (n : nat) (d : DatabaseManager.Database)
  : DatabaseManager.Database :=
  DatabaseManager.store_message (utc_now env n) (c_id chat) chat_name
    (usr_id sender) (usr_full_name sender) message_text d.

(** The turn sequence of the inference call for a message, over database [d]. *)
Definition request_messages (env : Env) (chat : Chat) (sender : User)
    (message_text : str) (d : DatabaseManager.Database) : list RoleMessage :=
  assemble_context env
    (DatabaseManager.get_conversation_history (c_id chat) (history_limit env) d)
  ++ [{| role := ROLE_USER;
         content :=
           compose_prompt
             (DatabaseManager.fetch_instructions_for_group (c_id chat) d)
             sender message_text |}].

(** The bot's full name as line 162 joins it. *)
Definition bot_display_name (env : Env) : str :=
  join (lit " ")
    (flat_map (fun part => match truthy part with
                           | Some p => [p]
                           | None => []
                           end)
              [Some (bot_first_name (bot env)); bot_last_name (bot env)]).

(** ** Sample data *)

Module Sample.

Local Open Scope Z_scope.

(** [str.lower] restricted to ASCII letters; other code points are kept. *)
Definition ascii_lower (s : str) : str :=
  map (fun c => if ((65 <=? c) && (c <=? 90))%N then (c + 32)%N else c) s.

Definition tbot : Bot :=
  {| bot_id := 99; bot_username := lit "TBot";
     bot_first_name := lit "Tel"; bot_last_name := Some (lit "Lama") |}.

(** An environment in which nothing raises and the model answers with a
    reasoning block followed by a greeting. *)
Definition env_ok : Env :=
  {| bot := tbot; history_limit := 1000; lower := ascii_lower;
     raises := fun _ => false; cancels := fun _ => false;
     ollama_content := fun _ => lit "<think>x</think> Hello!";
     utc_now := fun _ => lit "2025-01-01T00:00:00+00:00" |}.

(** The same, with a model that asks for silence. *)
Definition env_skip : Env :=
  {| bot := tbot; history_limit := 1000; lower := ascii_lower;
     raises := fun _ => false; cancels := fun _ => false;
     ollama_content := fun _ => lit " <skip> ";
     utc_now := fun _ => lit "2025-01-01T00:00:00+00:00" |}.

(** The [n]-th operation raises, every other one succeeds. *)
Definition env_failing (n : nat) : Env :=
  {| bot := tbot; history_limit := 1000; lower := ascii_lower;
     raises := fun k => Nat.eqb k n; cancels := fun _ => false;
     ollama_content := fun _ => lit "Hello!";
     utc_now := fun _ => lit "2025-01-01T00:00:00+00:00" |}.



Definition alice : User := {| usr_id := 1; usr_full_name := lit "Alice" |}.

Definition group5 : Chat :=
  {| c_id := 5; c_type := SUPERGROUP; c_title := Some (lit "Room") |}.

Definition private1 : Chat :=
  {| c_id := 1; c_type := PRIVATE; c_title := None |}.

(** Group 5 and user 1 are allowed; one earlier turn of each party in
    group 5; a global default instruction row. *)
Definition db_open : DatabaseManager.Database :=
  {| DatabaseManager.tellama_settings := [];
     DatabaseManager.conversation_history :=
       [ {| DatabaseManager.h_id := 1; DatabaseManager.h_timestamp := lit "t1";
            DatabaseManager.h_chat_id := 5; DatabaseManager.h_chat_name := lit "Room";
            DatabaseManager.h_user_id := 2; DatabaseManager.h_full_name := lit "Bob";
            DatabaseManager.h_message := lit "@tbot ping" |};
         {| DatabaseManager.h_id := 2; DatabaseManager.h_timestamp := lit "t2";
            DatabaseManager.h_chat_id := 5; DatabaseManager.h_chat_name := lit "Room";
            DatabaseManager.h_user_id := 99; DatabaseManager.h_full_name := lit "Tel Lama";
            DatabaseManager.h_message := lit "pong" |} ];
     DatabaseManager.allowed_groups :=
       [ {| DatabaseManager.g_id := 1; DatabaseManager.g_chat_id := 5;
            DatabaseManager.g_chat_name := lit "Room" |} ];
     DatabaseManager.allowed_users :=
       [ {| DatabaseManager.u_id := 1; DatabaseManager.u_user_id := 1;
            DatabaseManager.u_user_name := lit "alice" |} ];
     DatabaseManager.chat_instructions :=
       [ {| DatabaseManager.i_id := 1; DatabaseManager.i_chat_id := None;
            DatabaseManager.i_instructions := lit "Be brief." |} ] |}.

Definition world_of (d : DatabaseManager.Database) : World :=
  {| db := d; clock := 0; trace := [] |}.

End Sample.

(** ** Program entry ([__main__.py]) *)

Module Main.

Section OllamaOptions.

(** Floating-point option values are only passed through. *)
Variable Float : Type.

Inductive Value :=
| VInt (n : Z)
| VFloat (x : Float)
| VBool (b : bool).

(** The options of [parse_args] that [main] reads to build the option bag:
    each is [None] unless given on the command line or in the environment. *)
Record Namespace := {
  num_ctx : option Z;
  temperature : option Float;
  top_p : option Float;
  top_k : option Z;
  min_p : option Float;
  repetition_penalty : option Float;
  max_new_tokens : option Z;
  do_sample : bool }.

(** [getattr(args, opt)] for the names [main] asks for. *)
Definition getattr (args : Namespace) (opt : str) : option Value :=
  if str_eqb opt (lit "num_ctx") then option_map VInt (num_ctx args)
  else if str_eqb opt (lit "temperature") then option_map VFloat (temperature args)
  else if str_eqb opt (lit "top_p") then option_map VFloat (top_p args)
  else if str_eqb opt (lit "top_k") then option_map VInt (top_k args)
  else if str_eqb opt (lit "min_p") then option_map VFloat (min_p args)
  else if str_eqb opt (lit "repetition_penalty")
       then option_map VFloat (repetition_penalty args)
  else if str_eqb opt (lit "max_new_tokens") then option_map VInt (max_new_tokens args)
  else None.

(** A Python [dict] with string keys, in insertion order. *)
Definition dict := list (str * Value).

(** [d[key] = value] *)
Fixpoint dict_set (key : str) (value : Value) (d : dict) : dict :=
  match d with
  | [] => [(key, value)]
  | (k, v) :: rest =>
      if str_eqb k key then (k, value) :: rest
      else (k, v) :: dict_set key value rest
  end.

(** [d.get(key)] *)
Fixpoint dict_get (key : str) (d : dict) : option Value :=
  match d with
  | [] => None
  | (k, v) :: rest => if str_eqb k key then Some v else dict_get key rest
  end.

Definition OPTION_NAMES : list str :=
  [ lit "num_ctx"; lit "temperature"; lit "top_p"; lit "top_k"; lit "min_p";
    lit "repetition_penalty"; lit "max_new_tokens" ].

(** Lines 146-162 of [main]: the option bag handed to [Tellama]. *)
Definition build_ollama_options (args : Namespace) : dict :=
  let ollama_options :=
    fold_left
      (fun ollama_options opt =>
         match getattr args opt with
         | Some value => dict_set opt value ollama_options
         | None => ollama_options
         end)
      OPTION_NAMES [] in
  if do_sample args
  then dict_set (lit "do_sample") (VBool true) ollama_options
  else ollama_options.

End OllamaOptions.

End Main.

(** ** Vocabulary for the properties of whole runs *)

(** The arguments of the [store_message] call for the inbound message, made
    by operation [n]. *)
Definition inbound_entry (env : Env) (chat : Chat) (sender : User)
    (message_text chat_name : str) (n : nat) : DatabaseManager.HistoryEntry :=
  {| DatabaseManager.timestamp := utc_now env n;
     DatabaseManager.chat_id := c_id chat;
     DatabaseManager.chat_name := chat_name;
     DatabaseManager.user_id := usr_id sender;
     DatabaseManager.full_name := usr_full_name sender;
     DatabaseManager.message := message_text |}.

(** The arguments of the [store_message] call for the reply, made by
    operation [n]. *)
Definition outbound_entry (env : Env) (chat : Chat) (chat_name answer : str)
    (n : nat) : DatabaseManager.HistoryEntry :=
  {| DatabaseManager.timestamp := utc_now env n;
     DatabaseManager.chat_id := c_id chat;
     DatabaseManager.chat_name := chat_name;
     DatabaseManager.user_id := bot_id (bot env);
     DatabaseManager.full_name := bot_display_name env;
     DatabaseManager.message := answer |}.

(** The settings table is in rowid order. *)
Definition settings_rowid_order (rows : list DatabaseManager.SettingRow) : Prop :=
  StronglySorted Z.lt (map DatabaseManager.s_id rows).

(** [s] neither starts nor ends with whitespace. *)
Definition trimmed (s : str) : Prop :=
  match s with
  | [] => True
  | c :: _ => is_space c = false /\ is_space (last s c) = false
  end.

(** * Properties *)

(** ** Strings *)

Lemma str_eqb_eq (a b : str) : str_eqb a b = true <-> a = b.
Proof.
  revert b; induction a as [|x a IH]; intros [|y b]; simpl;
    try (split; [discriminate | discriminate]); try tauto.
  unfold char_eqb. rewrite andb_true_iff, N.eqb_eq, IH.
  split; [intros [-> ->]; reflexivity | intros H; inversion H; auto].
Qed.

Lemma str_eqb_refl (a : str) : str_eqb a a = true.
Proof. apply str_eqb_eq; reflexivity. Qed.

Lemma startswith_app (s p : str) :
  startswith s p = true <-> exists r, s = p ++ r.
Proof.
  revert s; induction p as [|x p IH]; intros s; simpl.
  - split; [intros _; exists s; reflexivity | reflexivity].
  - destruct s as [|y s]; [split; [discriminate | intros [r Hr]; discriminate]|].
    unfold char_eqb. rewrite andb_true_iff, N.eqb_eq, IH. split.
    + intros [-> [r ->]]. exists r; reflexivity.
    + intros [r Hr]. inversion Hr; subst. split; [reflexivity | eauto].
Qed.

Lemma startswith_nil (p : str) : p <> [] -> startswith [] p = false.
Proof. destruct p; [congruence | reflexivity]. Qed.

Lemma find_Some (sub s : str) (i : nat) :
  find s sub = Some i ->
  occurs_at sub s i /\ forall j, (j < i)%nat -> startswith (skipn j s) sub = false.
Proof.
  unfold occurs_at. revert i; induction s as [|c s IH]; intros i; simpl.
  - destruct (startswith [] sub) eqn:E; [|discriminate].
    intros [= <-]. split; [exact E | intros j Hj; lia].
  - destruct (startswith (c :: s) sub) eqn:E.
    + intros [= <-]. split; [exact E | intros j Hj; lia].
    + destruct (find s sub) as [k|] eqn:F; simpl; [|discriminate].
      intros [= <-]. destruct (IH k eq_refl) as [H1 H2]. split; [exact H1|].
      intros [|j] Hj; simpl; [exact E | apply H2; lia].
Qed.

Lemma find_None (sub s : str) :
  find s sub = None <-> forall j, startswith (skipn j s) sub = false.
Proof.
  induction s as [|c s IH]; simpl.
  - destruct (startswith [] sub) eqn:E.
    + split; [discriminate | intros H; specialize (H 0%nat); simpl in H; congruence].
    + split; [intros _ j; rewrite skipn_nil; exact E | reflexivity].
  - destruct (startswith (c :: s) sub) eqn:E.
    + split; [discriminate | intros H; specialize (H 0%nat); simpl in H; congruence].
    + destruct (find s sub) as [k|] eqn:F; simpl.
      * split; [discriminate|]. intros H.
        assert (Some k = None) by (apply IH; intros j; apply (H (S j))).
        discriminate.
      * split; [|reflexivity]. intros _ [|j]; simpl; [exact E|].
        apply IH; reflexivity.
Qed.

Lemma contains_occurs (sub s : str) :
  contains sub s = true <-> exists i, occurs_at sub s i.
Proof.
  unfold contains. destruct (find s sub) as [i|] eqn:F.
  - split; [intros _; exists i; apply (find_Some _ _ _ F) | reflexivity].
  - split; [discriminate|]. intros [i Hi]. unfold occurs_at in Hi.
    rewrite (proj1 (find_None sub s) F i) in Hi. discriminate.
Qed.

(** Two occurrences of the closing tag never overlap. *)
Lemma think_close_no_overlap (s : str) (k i : nat) :
  occurs_at THINK_CLOSE s k -> occurs_at THINK_CLOSE s i ->
  (k < i)%nat -> (k + 8 <= i)%nat.
Proof.
  unfold occurs_at. intros Hk Hi Hlt.
  destruct (le_lt_dec (k + 8) i) as [Hle|Hgt]; [exact Hle | exfalso].
  replace i with ((i - k) + k)%nat in Hi by lia.
  rewrite <- skipn_skipn in Hi.
  apply startswith_app in Hk. destruct Hk as [r Hr]. rewrite Hr in Hi.
  assert (Hd : (1 <= i - k <= 7)%nat) by lia.
  destruct (i - k)%nat as [|[|[|[|[|[|[|[|d]]]]]]]]; try lia;
    cbn in Hi; discriminate.
Qed.

Lemma split_fuel_nonempty (fuel : nat) (s sep : str) : split_fuel fuel s sep <> [].
Proof.
  destruct fuel; simpl; [discriminate|].
  destruct (find s sep); discriminate.
Qed.

Lemma last_cons_nonempty (x : str) (l : list str) :
  l <> [] -> last (x :: l) [] = last l [].
Proof. destruct l; [congruence | reflexivity]. Qed.

(** The last piece of [split] is what follows the last closing tag. *)
Lemma split_think_last (fuel : nat) :
  forall (s : str) (i : nat),
    (length s <= fuel)%nat ->
    last_occurrence THINK_CLOSE s i ->
    last_piece (split_fuel fuel s THINK_CLOSE) = skipn (i + 8) s.
Proof.
  unfold last_piece.
  induction fuel as [|fuel IH]; intros s i Hlen [Hocc Hlast].
  - destruct s; [|simpl in Hlen; lia].
    unfold occurs_at in Hocc. rewrite skipn_nil in Hocc. discriminate.
  - simpl. destruct (find s THINK_CLOSE) as [k|] eqn:F.
    + destruct (find_Some _ _ _ F) as [Hk Hmin].
      rewrite last_cons_nonempty by apply split_fuel_nonempty.
      assert (Hki : (k <= i)%nat).
      { destruct (le_lt_dec k i) as [H|H]; [exact H|].
        unfold occurs_at in Hocc. rewrite (Hmin i H) in Hocc. discriminate. }
      change (length THINK_CLOSE) with 8%nat.
      destruct (Nat.eq_dec k i) as [->|Hne].
      * assert (Fr : find (skipn (i + 8) s) THINK_CLOSE = None).
        { apply find_None. intros j. rewrite skipn_skipn.
          destruct (startswith (skipn (j + (i + 8)) s) THINK_CLOSE) eqn:E;
            [|reflexivity].
          exfalso. apply (Hlast (j + (i + 8))%nat); [lia | exact E]. }
        destruct fuel; simpl; [reflexivity | rewrite Fr; reflexivity].
      * assert (Hgap : (k + 8 <= i)%nat)
          by (apply (think_close_no_overlap s); [exact Hk | exact Hocc | lia]).
        rewrite (IH (skipn (k + 8) s) (i - (k + 8))%nat).
        -- rewrite skipn_skipn. f_equal. lia.
        -- rewrite length_skipn.
           assert (Hs : (8 <= length s - k)%nat).
           { unfold occurs_at in Hk. apply startswith_app in Hk.
             destruct Hk as [r Hr].
             apply (f_equal (@length _)) in Hr.
             rewrite length_skipn, length_app in Hr. simpl in Hr. lia. }
           lia.
        -- split.
           ++ unfold occurs_at in *. rewrite skipn_skipn.
              replace (i - (k + 8) + (k + 8))%nat with i by lia. exact Hocc.
           ++ intros j Hj Hoj. unfold occurs_at in Hoj.
              rewrite skipn_skipn in Hoj.
              apply (Hlast (j + (k + 8))%nat); [lia | exact Hoj].
    + exfalso. unfold occurs_at in Hocc.
      rewrite (proj1 (find_None _ _) F i) in Hocc. discriminate.
Qed.

Lemma remove_think_last (answer : str) (i : nat) :
  last_occurrence THINK_CLOSE answer i ->
  remove_think answer = strip (skipn (i + 8) answer).
Proof.
  intros Hlast. unfold remove_think.
  assert (Hc : contains THINK_CLOSE answer = true)
    by (apply contains_occurs; exists i; apply Hlast).
  rewrite Hc. unfold split.
  rewrite (split_think_last (length answer) answer i); auto.
Qed.

Lemma remove_think_absent (answer : str) :
  contains THINK_CLOSE answer = false -> remove_think answer = answer.
Proof. intros H; unfold remove_think; rewrite H; reflexivity. Qed.

(** A tag followed by text without any tag is the last one. *)
Lemma last_occurrence_app (pre post : str) :
  contains THINK_CLOSE post = false ->
  last_occurrence THINK_CLOSE (pre ++ THINK_CLOSE ++ post) (length pre).
Proof.
  intros Hpost.
  assert (Hat : occurs_at THINK_CLOSE (pre ++ THINK_CLOSE ++ post) (length pre)).
  { unfold occurs_at. rewrite skipn_app, Nat.sub_diag, skipn_all. simpl skipn.
    apply startswith_app. exists post. reflexivity. }
  split; [exact Hat|].
  intros j Hj Hoj.
  pose proof (think_close_no_overlap _ _ _ Hat Hoj Hj) as Hgap.
  assert (He : exists i, occurs_at THINK_CLOSE post i).
  { exists (j - (length pre + 8))%nat. unfold occurs_at in *.
    replace j with ((j - (length pre + 8)) + 8 + length pre)%nat in Hoj by lia.
    rewrite <- skipn_skipn in Hoj.
    rewrite skipn_app, Nat.sub_diag, skipn_all in Hoj. simpl app in Hoj.
    rewrite <- skipn_skipn in Hoj. exact Hoj. }
  apply contains_occurs in He. congruence.
Qed.

(** ** The persistence store *)

Section StoreFacts.

Import DatabaseManager.
Local Open Scope Z_scope.

Lemma next_rowid_above (ids : list Z) (x : Z) :
  In x ids -> x < next_rowid ids.
Proof.
  unfold next_rowid. induction ids as [|y ids IH]; cbn [fold_right In]; [tauto|].
  intros [->|H]; [lia | specialize (IH H); lia].
Qed.

Lemma fetchone_filter_None {A} (f : A -> bool) (l : list A) :
  fetchone (filter f l) = None <-> forall y, In y l -> f y = false.
Proof.
  unfold fetchone. induction l as [|x l IH]; simpl.
  - split; [intros _ y [] | reflexivity].
  - destruct (f x) eqn:E; simpl.
    + split; [discriminate|]. intros H. rewrite (H x (or_introl eq_refl)) in E.
      discriminate.
    + rewrite IH. split.
      * intros H y [<-|Hy]; [exact E | apply H, Hy].
      * intros H y Hy. apply H. right; exact Hy.
Qed.

(** [fetchone] after [WHERE] yields the first row, in rowid order, that
    satisfies the condition. *)
Lemma fetchone_filter_Some {A} (f : A -> bool) (l : list A) (x : A) :
  fetchone (filter f l) = Some x <->
  exists before after,
    l = before ++ x :: after /\ f x = true /\
    forall y, In y before -> f y = false.
Proof.
  unfold fetchone. induction l as [|a l IH]; simpl.
  - split; [discriminate|]. intros (b & c & H & _). destruct b; discriminate.
  - destruct (f a) eqn:E; simpl.
    + split.
      * intros [= <-]. exists [], l. repeat split; [exact E | intros y []].
      * intros ([|b0 b] & c & H & Hx & Hb); simpl in H; inversion H; subst.
        -- reflexivity.
        -- rewrite Hb in E by (left; reflexivity). discriminate.
    + rewrite IH. split.
      * intros (b & c & -> & Hx & Hb). exists (a :: b), c.
        repeat split; [exact Hx|]. intros y [<-|Hy]; [exact E | apply Hb, Hy].
      * intros ([|b0 b] & c & H & Hx & Hb); simpl in H; inversion H; subst.
        -- congruence.
        -- exists b, c. repeat split; [exact Hx|].
           intros y Hy. apply Hb. right; exact Hy.
Qed.

Lemma fetchone_map {A B} (g : A -> B) (l : list A) :
  fetchone (map g l) = option_map g (fetchone l).
Proof. destruct l; reflexivity. Qed.

Lemma set_setting_rows (setting value : str) (db : Database) :
  tellama_settings (set_setting setting value db) =
  tellama_settings db ++
    [{| s_id := next_rowid (map s_id (tellama_settings db));
        s_setting := setting; s_value := value |}].
Proof.
  unfold set_setting; simpl. f_equal.
  apply forallb_filter_id. apply forallb_forall. intros r Hr.
  apply negb_true_iff, Z.eqb_neq.
  pose proof (next_rowid_above (map s_id (tellama_settings db)) (s_id r)
                (in_map s_id _ _ Hr)). lia.
Qed.

(** A write never changes what [get_setting] already answers; it only
    matters for a name that had no row. *)
Lemma get_setting_set_setting (setting value : str) (db : Database) :
  get_setting setting (set_setting setting value db) =
  match get_setting setting db with
  | Some old => Some old
  | None => Some value
  end.
Proof.
  unfold get_setting. rewrite set_setting_rows, filter_app, map_app. simpl.
  rewrite str_eqb_refl. simpl.
  destruct (filter (fun r => str_eqb (s_setting r) setting) (tellama_settings db));
    reflexivity.
Qed.

Lemma count_setting_set_setting (setting value : str) (db : Database) :
  count_setting setting (set_setting setting value db) =
  S (count_setting setting db).
Proof.
  unfold count_setting. rewrite set_setting_rows, filter_app, length_app. simpl.
  rewrite str_eqb_refl. simpl. lia.
Qed.

End StoreFacts.

(** ** The history table *)

Section HistoryFacts.

Import DatabaseManager.
Local Open Scope Z_scope.

Lemma insert_desc_smallest (r : HistoryRow) (sorted : list HistoryRow) :
  Forall (fun y => h_id r < h_id y) sorted ->
  insert_desc r sorted = sorted ++ [r].
Proof.
  induction 1 as [|y sorted Hy _ IH]; simpl; [reflexivity|].
  destruct (h_id y <=? h_id r) eqn:E; [apply Z.leb_le in E; lia|].
  rewrite IH. reflexivity.
Qed.

Lemma rowid_order_inv (r : HistoryRow) (rows : list HistoryRow) :
  rowid_order (r :: rows) ->
  rowid_order rows /\ Forall (fun y => h_id r < h_id y) rows.
Proof.
  unfold rowid_order; simpl. intros H.
  apply StronglySorted_inv in H. destruct H as [H1 H2].
  split; [exact H1|]. rewrite Forall_map in H2. exact H2.
Qed.

(** On a table in rowid order, [ORDER BY id DESC] is the reversed scan. *)
Lemma order_by_id_desc_rev (rows : list HistoryRow) :
  rowid_order rows -> order_by_id_desc rows = rev rows.
Proof.
  induction rows as [|r rows IH]; intros H; simpl; [reflexivity|].
  apply rowid_order_inv in H. destruct H as [H1 H2].
  rewrite (IH H1). apply insert_desc_smallest.
  apply Forall_forall. intros y Hy. apply in_rev in Hy.
  rewrite Forall_forall in H2. apply H2, Hy.
Qed.

Lemma rowid_order_filter (f : HistoryRow -> bool) (rows : list HistoryRow) :
  rowid_order rows -> rowid_order (filter f rows).
Proof.
  induction rows as [|r rows IH]; intros H; simpl; [exact H|].
  apply rowid_order_inv in H. destruct H as [H1 H2].
  destruct (f r); [|apply IH, H1].
  unfold rowid_order; simpl. constructor; [apply IH, H1|].
  rewrite Forall_map. apply Forall_forall. intros y Hy.
  apply filter_In in Hy. rewrite Forall_forall in H2. apply H2, Hy.
Qed.

Lemma rowid_order_app (old new : list HistoryRow) :
  rowid_order old -> rowid_order new ->
  (forall x y, In x old -> In y new -> h_id x < h_id y) ->
  rowid_order (old ++ new).
Proof.
  induction old as [|r old IH]; intros Ho Hn Hlt; simpl; [exact Hn|].
  apply rowid_order_inv in Ho. destruct Ho as [H1 H2].
  unfold rowid_order; simpl. constructor.
  - apply IH; [exact H1 | exact Hn|].
    intros x y Hx Hy. apply Hlt; [right; exact Hx | exact Hy].
  - rewrite Forall_map. apply Forall_app. split; [exact H2|].
    apply Forall_forall. intros y Hy. apply Hlt; [left; reflexivity | exact Hy].
Qed.

Lemma in_skipn_in {A} (n : nat) (l : list A) (x : A) :
  In x (skipn n l) -> In x l.
Proof.
  intros H. rewrite <- (firstn_skipn n l). apply in_or_app. right; exact H.
Qed.

Lemma history_dict_select (chat : Z) (r : HistoryRow) :
  h_chat_id r = chat ->
  history_dict chat (select_history_columns r) = entry_of_row r.
Proof. intros <-. reflexivity. Qed.

(** What [get_conversation_history] returns on a table in rowid order: the
    last [limit] rows of the chat, oldest first, fields unchanged. *)
Lemma get_conversation_history_suffix (chat limit : Z) (db : Database) :
  rowid_order (conversation_history db) -> 0 <= limit ->
  get_conversation_history chat limit db =
  map entry_of_row
    (skipn (length (rows_of_chat chat db) - Z.to_nat limit)
           (rows_of_chat chat db)).
Proof.
  intros Hord Hlim. unfold get_conversation_history.
  fold (rows_of_chat chat db).
  assert (Hs : rowid_order (rows_of_chat chat db))
    by (apply rowid_order_filter, Hord).
  rewrite (order_by_id_desc_rev _ Hs). unfold sql_limit.
  destruct (limit <? 0) eqn:E; [apply Z.ltb_lt in E; lia|].
  rewrite firstn_rev, <- map_rev, rev_involutive, map_map.
  apply map_ext_in. intros r Hr. apply history_dict_select.
  apply in_skipn_in in Hr. unfold rows_of_chat in Hr.
  apply filter_In in Hr. destruct Hr as [_ Hr]. apply Z.eqb_eq, Hr.
Qed.

Lemma store_messages_rows (chat : Z) (sent : list HistoryEntry) :
  forall db,
  exists rows,
    conversation_history (store_messages chat sent db) =
      conversation_history db ++ rows /\
    map entry_of_row rows = map (filed_under chat) sent /\
    rowid_order rows /\
    (forall x y, In x (conversation_history db) -> In y rows -> h_id x < h_id y).
Proof.
  induction sent as [|e sent IH]; intros db.
  - exists []. simpl. rewrite app_nil_r.
    repeat split; [constructor | intros x y _ []].
  - change (store_messages chat (e :: sent) db)
      with (store_messages chat sent
              (store_message (timestamp e) chat (chat_name e) (user_id e)
                 (full_name e) (message e) db)).
    destruct (IH (store_message (timestamp e) chat (chat_name e) (user_id e)
                    (full_name e) (message e) db))
      as (rows & Hrows & Hmap & Hord & Hlt).
    cbn [store_message conversation_history] in Hrows, Hlt.
    set (r0 := {| h_id := next_rowid (map h_id (conversation_history db));
                  h_timestamp := timestamp e; h_chat_id := chat;
                  h_chat_name := chat_name e; h_user_id := user_id e;
                  h_full_name := full_name e; h_message := message e |}) in *.
    exists (r0 :: rows). repeat split.
    + rewrite Hrows, <- app_assoc. reflexivity.
    + simpl. rewrite Hmap. reflexivity.
    + unfold rowid_order; simpl. constructor; [exact Hord|].
      rewrite Forall_map. apply Forall_forall. intros y Hy.
      apply (Hlt r0 y); [apply in_or_app; right; left; reflexivity | exact Hy].
    + intros x y Hx [<-|Hy].
      * simpl. apply next_rowid_above, in_map, Hx.
      * apply Hlt; [apply in_or_app; left; exact Hx | exact Hy].
Qed.

Lemma rowid_order_store_messages (chat : Z) (sent : list HistoryEntry) (db : Database) :
  rowid_order (conversation_history db) ->
  rowid_order (conversation_history (store_messages chat sent db)).
Proof.
  intros H. destruct (store_messages_rows chat sent db) as (rows & -> & _ & Ho & Hlt).
  apply rowid_order_app; assumption.
Qed.

Lemma rows_all_of_chat (chat : Z) (rows : list HistoryRow) (sent : list HistoryEntry) :
  map entry_of_row rows = map (filed_under chat) sent ->
  filter (fun r => h_chat_id r =? chat) rows = rows.
Proof.
  revert sent. induction rows as [|r rows IH]; intros [|e sent] H;
    simpl in *; try discriminate; [reflexivity|].
  assert (Hr : h_chat_id r = chat)
    by (apply (f_equal (fun l => match l with
                                 | x :: _ => chat_id x
                                 | [] => chat
                                 end)) in H; exact H).
  apply (f_equal (@tl _)) in H. simpl in H.
  rewrite Hr, Z.eqb_refl. f_equal. apply (IH sent H).
Qed.

Lemma filed_under_id (chat : Z) (sent : list HistoryEntry) :
  (forall e, In e sent -> chat_id e = chat) ->
  map (filed_under chat) sent = sent.
Proof.
  intros H. rewrite <- (map_id sent) at 2. apply map_ext_in.
  intros [ts c cn u fn m] He. specialize (H _ He). simpl in H. subst c.
  reflexivity.
Qed.

End HistoryFacts.

(** ** Running the pipeline *)

Ltac run_ops :=
  unfold guarded_pipeline, try_except, pipeline, on_error, bind, ret, db_read,
    db_store_message, ollama_chat, reply_text, get_me, external, awaited;
  cbn [db clock trace fst snd].

(** Case analysis on every point where a run can branch. *)
Ltac split_run :=
  repeat (cbn [db clock trace fst snd] in *;
    match goal with
    | H : (Ok _, _) = (Raised, _) |- _ => discriminate H
    | H : (Raised, _) = (Ok _, _) |- _ => discriminate H
    | H : (Ok _, _) = (Cancelled, _) |- _ => discriminate H
    | H : (Cancelled, _) = (Ok _, _) |- _ => discriminate H
    | H : (Raised, _) = (Cancelled, _) |- _ => discriminate H
    | H : (Cancelled, _) = (Raised, _) |- _ => discriminate H
    | |- context [if raises ?e ?n then _ else _] => destruct (raises e n) eqn:?
    | H : context [if raises ?e ?n then _ else _] |- _ => destruct (raises e n) eqn:?
    | |- context [if cancels ?e ?n then _ else _] => destruct (cancels e n) eqn:?
    | H : context [if cancels ?e ?n then _ else _] |- _ => destruct (cancels e n) eqn:?
    | H : context [if negb ?a && negb ?b then _ else _] |- _ =>
        destruct (negb a && negb b) eqn:?
    | H : context [match postprocess ?r with _ => _ end] |- _ =>
        destruct (postprocess r) eqn:?
    | H : (_, _) = (_, _) |- _ => inversion H; subst; clear H
    end).


Lemma on_error_ok (env : Env) (w : World) :
  raises env (clock w) = false ->
  raises env (S (clock w)) = false ->
  on_error env w =
  (Ok tt, {| db := db w; clock := 2 + clock w;
             trace := trace w ++ [DbGetSetting (lit "internal_error_message");
                                  ReplyText (error_text (db w))] |}).
Proof.
  intros H1 H2. run_ops. rewrite H1. cbn [db clock trace fst snd].
  rewrite H2. cbn [db clock trace fst snd]. rewrite <- app_assoc. reflexivity.
Qed.



Lemma fetch_instructions_with_inbound (env : Env) (chat : Chat) (sender : User)
    (message_text chat_name : str) (n : nat) (d : DatabaseManager.Database) (c : Z) :
  DatabaseManager.fetch_instructions_for_group c
    (with_inbound env chat sender message_text chat_name n d) =
  DatabaseManager.fetch_instructions_for_group c d.
Proof. reflexivity. Qed.

(** The three ways a run without failures ends. *)
Lemma pipeline_gate_stops (env : Env) (chat : Chat) (sender : User)
    (message_text chat_name : str) (w : World) :
  no_raise env ->
  is_private chat = false -> mentions_bot env message_text = false ->
  pipeline env chat sender message_text chat_name w =
  (Ok tt,
   {| db := with_inbound env chat sender message_text chat_name (S (clock w)) (db w);
      clock := 2 + clock w;
      trace := trace w ++ [DbGetHistory (c_id chat) (history_limit env);
                           DbStoreMessage (c_id chat) (usr_id sender) message_text] |}).
Proof.
  intros Hno Hp Hm. run_ops. rewrite !Hno. cbn [db clock trace fst snd].
  rewrite Hp, Hm. cbn. rewrite <- app_assoc. reflexivity.
Qed.

Lemma pipeline_skips (env : Env) (chat : Chat) (sender : User)
    (message_text chat_name : str) (w : World) :
  no_raise env ->
  is_private chat = true \/ mentions_bot env message_text = true ->
  postprocess (ollama_content env (request_messages env chat sender message_text (db w)))
    = Skip ->
  pipeline env chat sender message_text chat_name w =
  (Ok tt,
   {| db := with_inbound env chat sender message_text chat_name (S (clock w)) (db w);
      clock := 4 + clock w;
      trace := trace w ++ [DbGetHistory (c_id chat) (history_limit env);
                           DbStoreMessage (c_id chat) (usr_id sender) message_text;
                           DbFetchInstructions (c_id chat);
                           OllamaChat (request_messages env chat sender message_text (db w))] |}).
Proof.
  intros Hno Hgate Hskip. run_ops. rewrite !Hno. cbn [db clock trace fst snd].
  assert (Hg : negb (is_private chat) && negb (mentions_bot env message_text) = false)
    by (destruct Hgate as [-> | ->]; [reflexivity | apply andb_false_r]).
  rewrite Hg, !Hno. cbn [db clock trace fst snd].
  change (DatabaseManager.store_message (utc_now env (S (clock w))) (c_id chat)
            chat_name (usr_id sender) (usr_full_name sender) message_text (db w))
    with (with_inbound env chat sender message_text chat_name (S (clock w)) (db w)).
  rewrite fetch_instructions_with_inbound.
  fold (request_messages env chat sender message_text (db w)).
  rewrite Hskip. rewrite <- !app_assoc. reflexivity.
Qed.

Lemma pipeline_answers (env : Env) (chat : Chat) (sender : User)
    (message_text chat_name answer : str) (w : World) :
  no_raise env ->
  is_private chat = true \/ mentions_bot env message_text = true ->
  postprocess (ollama_content env (request_messages env chat sender message_text (db w)))
    = Answer answer ->
  pipeline env chat sender message_text chat_name w =
  (Ok tt,
   {| db := DatabaseManager.store_message (utc_now env (6 + clock w)) (c_id chat)
              chat_name (bot_id (bot env)) (bot_display_name env) answer
              (with_inbound env chat sender message_text chat_name (S (clock w)) (db w));
      clock := 7 + clock w;
      trace := trace w ++ [DbGetHistory (c_id chat) (history_limit env);
                           DbStoreMessage (c_id chat) (usr_id sender) message_text;
                           DbFetchInstructions (c_id chat);
                           OllamaChat (request_messages env chat sender message_text (db w));
                           ReplyText answer; GetMe;
                           DbStoreMessage (c_id chat) (bot_id (bot env)) answer] |}).
Proof.
  intros Hno Hgate Hans. run_ops. rewrite !Hno. cbn [db clock trace fst snd].
  assert (Hg : negb (is_private chat) && negb (mentions_bot env message_text) = false)
    by (destruct Hgate as [-> | ->]; [reflexivity | apply andb_false_r]).
  rewrite Hg, !Hno. cbn [db clock trace fst snd].
  change (DatabaseManager.store_message (utc_now env (S (clock w))) (c_id chat)
            chat_name (usr_id sender) (usr_full_name sender) message_text (db w))
    with (with_inbound env chat sender message_text chat_name (S (clock w)) (db w)).
  rewrite fetch_instructions_with_inbound.
  fold (request_messages env chat sender message_text (db w)).
  rewrite Hans. repeat (rewrite Hno; cbn [db clock trace fst snd]).
  rewrite <- !app_assoc. reflexivity.
Qed.

(** A run that does not raise leaves the [try] through its body. *)
Lemma guarded_pipeline_ok (env : Env) (chat : Chat) (sender : User)
    (message_text chat_name : str) (w w' : World) :
  pipeline env chat sender message_text chat_name w = (Ok tt, w') ->
  guarded_pipeline env chat sender message_text chat_name w = (Ok tt, w').
Proof. unfold guarded_pipeline, try_except. intros ->. reflexivity. Qed.

(** Lines 55-100 on a well-formed event that the bot did not send itself. *)
Lemma handle_message_private (env : Env) (chat : Chat) (sender : User)
    (message_text : str) (w : World) :
  message_text <> [] -> usr_id sender <> bot_id (bot env) ->
  is_private chat = true ->
  raises env (clock w) = false ->
  DatabaseManager.is_user_allowed (usr_id sender) (db w) = true ->
  handle_message env (text_update chat sender message_text) w =
  guarded_pipeline env chat sender message_text (chat_name_of chat sender)
    {| db := db w; clock := S (clock w);
       trace := trace w ++ [DbIsUserAllowed (usr_id sender)] |}.
Proof.
  intros Ht Hs Hp Hr Ha. unfold handle_message, text_update, chat_name_of.
  cbn [effective_chat effective_message text from_user].
  destruct message_text as [|c t]; [congruence|]. cbn [truthy].
  apply Z.eqb_neq in Hs. rewrite Hs, Hp.
  unfold bind at 1. unfold db_read, external. rewrite Hr, Ha. reflexivity.
Qed.

Lemma handle_message_group (env : Env) (chat : Chat) (sender : User)
    (message_text : str) (w : World) :
  message_text <> [] -> usr_id sender <> bot_id (bot env) ->
  is_private chat = false ->
  raises env (clock w) = false ->
  DatabaseManager.is_group_allowed (c_id chat) (db w) = true ->
  handle_message env (text_update chat sender message_text) w =
  guarded_pipeline env chat sender message_text (chat_name_of chat sender)
    {| db := db w; clock := S (clock w);
       trace := trace w ++ [DbIsGroupAllowed (c_id chat)] |}.
Proof.
  intros Ht Hs Hp Hr Ha. unfold handle_message, text_update, chat_name_of.
  cbn [effective_chat effective_message text from_user].
  destruct message_text as [|c t]; [congruence|]. cbn [truthy].
  apply Z.eqb_neq in Hs. rewrite Hs, Hp.
  unfold bind at 1. unfold db_read, external. rewrite Hr, Ha. reflexivity.
Qed.

Lemma handle_message_authorized (env : Env) (chat : Chat) (sender : User)
    (message_text : str) (w : World) :
  message_text <> [] -> usr_id sender <> bot_id (bot env) ->
  raises env (clock w) = false ->
  authorized chat sender (db w) = true ->
  handle_message env (text_update chat sender message_text) w =
  guarded_pipeline env chat sender message_text (chat_name_of chat sender)
    {| db := db w; clock := S (clock w);
       trace := trace w ++ [auth_event chat sender] |}.
Proof.
  unfold authorized, auth_event. intros Ht Hs Hr Ha.
  destruct (is_private chat) eqn:Hp.
  - rewrite handle_message_private by assumption. reflexivity.
  - rewrite handle_message_group by assumption. reflexivity.
Qed.

Lemma negb_gate (env : Env) (chat : Chat) (message_text : str) :
  negb (is_private chat) && negb (mentions_bot env message_text) =
  negb (addressed env chat message_text).
Proof. unfold addressed. rewrite negb_orb. reflexivity. Qed.

(** A run without failures returns, and its trace starts with the history read
    followed by the inbound write. *)
Lemma pipeline_no_raise (env : Env) (chat : Chat) (sender : User)
    (message_text chat_name : str) (w : World) :
  no_raise env ->
  exists w' rest,
    pipeline env chat sender message_text chat_name w = (Ok tt, w') /\
    trace w' = trace w ++ DbGetHistory (c_id chat) (history_limit env)
                 :: DbStoreMessage (c_id chat) (usr_id sender) message_text
                 :: rest.
Proof.
  intros Hno.
  destruct (addressed env chat message_text) eqn:Ha.
  - assert (Hg : is_private chat = true \/ mentions_bot env message_text = true)
      by (apply orb_true_iff; exact Ha).
    destruct (postprocess (ollama_content env
                (request_messages env chat sender message_text (db w))))
      as [|answer] eqn:Hp.
    + eexists; eexists; split; [apply pipeline_skips; assumption|]. reflexivity.
    + eexists; eexists; split; [apply (pipeline_answers _ _ _ _ _ answer); assumption|].
      reflexivity.
  - apply orb_false_iff in Ha. destruct Ha as [Hp Hm].
    eexists; eexists; split; [apply pipeline_gate_stops; assumption|]. reflexivity.
Qed.

(** A run without failures of an addressed message calls the backend once. *)
Lemma pipeline_addressed (env : Env) (chat : Chat) (sender : User)
    (message_text chat_name : str) (w : World) :
  no_raise env ->
  addressed env chat message_text = true ->
  exists w',
    pipeline env chat sender message_text chat_name w = (Ok tt, w') /\
    inference_calls (trace w') =
      inference_calls (trace w)
        ++ [request_messages env chat sender message_text (db w)].
Proof.
  intros Hno Ha.
  assert (Hg : is_private chat = true \/ mentions_bot env message_text = true)
    by (apply orb_true_iff; exact Ha).
  destruct (postprocess (ollama_content env
              (request_messages env chat sender message_text (db w))))
    as [|answer] eqn:Hp.
  - eexists; split; [apply pipeline_skips; assumption|].
    cbn [trace]. unfold inference_calls. rewrite flat_map_app. reflexivity.
  - eexists; split; [apply (pipeline_answers _ _ _ _ _ answer); assumption|].
    cbn [trace]. unfold inference_calls. rewrite flat_map_app. reflexivity.
Qed.

Lemma auth_event_no_inference (chat : Chat) (sender : User) :
  inference_calls [auth_event chat sender] = [].
Proof. unfold auth_event. destruct (is_private chat); reflexivity. Qed.

Lemma auth_event_no_reply (chat : Chat) (sender : User) :
  replies [auth_event chat sender] = [].
Proof. unfold auth_event. destruct (is_private chat); reflexivity. Qed.

(** * The claims *)

(** C1 (the code departs from it).  The claim: after [set_setting n v1] and
    [set_setting n v2], [get_setting n] returns [v2].  What the code does: the
    table has no uniqueness constraint on [setting], so [INSERT OR REPLACE]
    never replaces; each write adds a row and [get_setting] keeps answering
    with the oldest row of the name.  On a newly created database, writing
    ["a"] and then ["b"] under the name ["k"] leaves two rows and reads back
    ["a"]. *)
Theorem set_setting_twice_reads_first :
  (forall db n v1 v2,
      DatabaseManager.get_setting n
        (DatabaseManager.set_setting n v2 (DatabaseManager.set_setting n v1 db)) =
      Some match DatabaseManager.get_setting n db with
           | Some old => old
           | None => v1
           end /\
      DatabaseManager.count_setting n
        (DatabaseManager.set_setting n v2 (DatabaseManager.set_setting n v1 db)) =
      S (S (DatabaseManager.count_setting n db))) /\
  DatabaseManager.get_setting (lit "k")
    (DatabaseManager.set_setting (lit "k") (lit "b")
       (DatabaseManager.set_setting (lit "k") (lit "a")
          (DatabaseManager._create_tables None))) = Some (lit "a").
Proof.
  split; [|reflexivity].
  intros db n v1 v2. split.
  - rewrite !get_setting_set_setting.
    destruct (DatabaseManager.get_setting n db); reflexivity.
  - rewrite !count_setting_set_setting. reflexivity.
Qed.

(** C2.  Post-processing applies its rules in order: trim; if the trimmed text
    contains the closing tag, keep what follows it, trimmed again; if the
    result is exactly the skip token, signal Skip.  The three inputs of the
    specification give ["hello"], Skip and ["plain"].  On Skip the pipeline
    sends no reply and stores the inbound row only. *)
Theorem postprocess_rules :
  postprocess (lit "abc</think>  hello ") = Answer (lit "hello") /\
  postprocess (lit "<skip>") = Skip /\
  postprocess (lit "  plain ") = Answer (lit "plain") /\
  (forall raw,
      contains THINK_CLOSE (strip raw) = false ->
      postprocess raw =
      if str_eqb (strip raw) SKIP_TOKEN then Skip else Answer (strip raw)) /\
  (forall raw before after,
      strip raw = before ++ THINK_CLOSE ++ after ->
      contains THINK_CLOSE after = false ->
      postprocess raw =
      if str_eqb (strip after) SKIP_TOKEN then Skip else Answer (strip after)) /\
  (forall env chat sender message_text w,
      no_raise env ->
      message_text <> [] -> usr_id sender <> bot_id (bot env) ->
      authorized chat sender (db w) = true ->
      addressed env chat message_text = true ->
      postprocess
        (ollama_content env (request_messages env chat sender message_text (db w)))
        = Skip ->
      exists w',
        handle_message env (text_update chat sender message_text) w = (Ok tt, w') /\
        replies (trace w') = replies (trace w) /\
        DatabaseManager.conversation_history (db w') =
          DatabaseManager.conversation_history (db w)
            ++ [inbound_row env chat sender message_text
                  (chat_name_of chat sender) (2 + clock w) (db w)]).
Proof.
  split; [vm_compute; reflexivity|].
  split; [vm_compute; reflexivity|].
  split; [vm_compute; reflexivity|].
  split; [|split].
  - intros raw H. unfold postprocess. rewrite (remove_think_absent _ H).
    reflexivity.
  - intros raw before after Hraw Hafter. unfold postprocess.
    rewrite Hraw.
    rewrite (remove_think_last _ (length before) (last_occurrence_app before after Hafter)).
    rewrite (Nat.add_comm (length before) 8).
    rewrite <- skipn_skipn, skipn_app, Nat.sub_diag, skipn_all. reflexivity.
  - intros env chat sender message_text w Hno Ht Hs Hauth Haddr Hskip.
    rewrite handle_message_authorized by (try assumption; apply Hno).
    eexists. split.
    + apply guarded_pipeline_ok. apply pipeline_skips; [assumption | | exact Hskip].
      apply orb_true_iff. exact Haddr.
    + cbn [trace db]. split.
      * unfold replies. rewrite !flat_map_app. fold (replies (trace w)).
        fold (replies [auth_event chat sender]).
        rewrite auth_event_no_reply. simpl. rewrite !app_nil_r. reflexivity.
      * reflexivity.
Qed.

Lemma postprocess_rules_witness :
  postprocess (lit " thinking</think> <skip> ") = Skip /\
  exists w',
    handle_message Sample.env_skip
      (text_update Sample.private1 Sample.alice (lit "hello"))
      (Sample.world_of Sample.db_open) = (Ok tt, w') /\
    replies (trace w') = [].
Proof.
  destruct postprocess_rules as (_ & _ & _ & _ & Htag & Hrun). split.
  - apply (Htag (lit " thinking</think> <skip> ") (lit "thinking") (lit " <skip>"));
      reflexivity.
  - destruct (Hrun Sample.env_skip Sample.private1 Sample.alice (lit "hello")
                (Sample.world_of Sample.db_open)) as (w' & Hw & Hr & _).
    + intros n; reflexivity.
    + discriminate.
    + discriminate.
    + reflexivity.
    + reflexivity.
    + reflexivity.
    + exists w'. split; [exact Hw | exact Hr].
Defined.

(** C10.  When the trimmed model output contains the closing tag, what is kept
    is the trimmed text after its last occurrence; with two tags this is not
    the text after the first one. *)
Theorem postprocess_keeps_after_last_tag :
  (forall raw i,
      last_occurrence THINK_CLOSE (strip raw) i ->
      postprocess raw =
      let kept := strip (skipn (i + length THINK_CLOSE) (strip raw)) in
      if str_eqb kept SKIP_TOKEN then Skip else Answer kept) /\
  postprocess (lit "a</think>b</think> c") = Answer (lit "c") /\
  postprocess (lit "a</think>b</think> c") <> Answer (lit "b</think> c").
Proof.
  split; [|split; [vm_compute; reflexivity | vm_compute; discriminate]].
  intros raw i Hlast. unfold postprocess.
  rewrite (remove_think_last _ i Hlast). reflexivity.
Qed.

Lemma postprocess_keeps_after_last_tag_witness :
  last_occurrence THINK_CLOSE (strip (lit " a</think>b</think> c ")) 10 /\
  postprocess (lit " a</think>b</think> c ") = Answer (lit "c").
Proof.
  assert (H : last_occurrence THINK_CLOSE (strip (lit " a</think>b</think> c ")) 10).
  { change (strip (lit " a</think>b</think> c "))
      with (lit "a</think>b" ++ THINK_CLOSE ++ lit " c").
    apply (last_occurrence_app (lit "a</think>b") (lit " c")). reflexivity. }
  split; [exact H|].
  rewrite (proj1 postprocess_keeps_after_last_tag _ 10%nat H). reflexivity.
Defined.

(** C3.  Authorization comes first and is asymmetric.  With no operation
    failing, on a well-formed event not sent by the bot:
    - an authorized message enters the guarded pipeline right after the check,
      so the check is the operation before the history read and the inbound
      write;
    - an unauthorized private sender gets exactly one reply, the configured
      denial text or the built-in one, and nothing else happens: no history
      row, no inference call;
    - an unauthorized group is dropped without any reply. *)
Theorem authorization_gate (env : Env) (chat : Chat) (sender : User)
    (message_text : str) (w : World) :
  no_raise env ->
  message_text <> [] -> usr_id sender <> bot_id (bot env) ->
  let update := text_update chat sender message_text in
  let checked := {| db := db w; clock := S (clock w);
                    trace := trace w ++ [auth_event chat sender] |} in
  (authorized chat sender (db w) = true ->
     handle_message env update w =
       guarded_pipeline env chat sender message_text (chat_name_of chat sender) checked /\
     exists w' rest,
       handle_message env update w = (Ok tt, w') /\
       trace w' = trace w ++ auth_event chat sender
                    :: DbGetHistory (c_id chat) (history_limit env)
                    :: DbStoreMessage (c_id chat) (usr_id sender) message_text
                    :: rest) /\
  (authorized chat sender (db w) = false -> is_private chat = true ->
     handle_message env update w =
       (Ok tt,
        {| db := db w; clock := 3 + clock w;
           trace := trace w ++ [DbIsUserAllowed (usr_id sender);
                                DbGetSetting (lit "private_chat_disallowed_message");
                                ReplyText (denial_text (db w))] |})) /\
  (authorized chat sender (db w) = false -> is_private chat = false ->
     handle_message env update w =
       (Ok tt,
        {| db := db w; clock := S (clock w);
           trace := trace w ++ [DbIsGroupAllowed (c_id chat)] |})).
Proof.
  intros Hno Ht Hs update checked. subst update checked.
  split; [|split].
  - intros Hauth.
    rewrite handle_message_authorized by (try assumption; apply Hno).
    split; [reflexivity|].
    destruct (pipeline_no_raise env chat sender message_text
                (chat_name_of chat sender)
                {| db := db w; clock := S (clock w);
                   trace := trace w ++ [auth_event chat sender] |} Hno)
      as (w' & rest & Hrun & Htr).
    exists w', rest. split; [apply guarded_pipeline_ok, Hrun|].
    rewrite Htr. cbn [trace]. rewrite <- app_assoc. reflexivity.
  - unfold authorized. intros Hauth Hp. rewrite Hp in Hauth.
    unfold handle_message, text_update.
    cbn [effective_chat effective_message text from_user].
    destruct message_text as [|c t]; [congruence|]. cbn [truthy].
    apply Z.eqb_neq in Hs. rewrite Hs, Hp.
    run_ops. rewrite Hno, Hauth. cbn [negb db clock trace].
    repeat (rewrite Hno; cbn [db clock trace fst snd]).
    rewrite <- !app_assoc. reflexivity.
  - unfold authorized. intros Hauth Hp. rewrite Hp in Hauth.
    unfold handle_message, text_update.
    cbn [effective_chat effective_message text from_user].
    destruct message_text as [|c t]; [congruence|]. cbn [truthy].
    apply Z.eqb_neq in Hs. rewrite Hs, Hp.
    run_ops. rewrite Hno, Hauth. reflexivity.
Qed.

Lemma authorization_gate_witness :
  replies
    (trace (snd (handle_message Sample.env_ok
                   (text_update Sample.private1 Sample.alice (lit "hi"))
                   (Sample.world_of DatabaseManager.empty_database))))
  = [PRIVATE_CHAT_DISALLOWED].
Proof.
  assert (Hno : no_raise Sample.env_ok) by (intros n; reflexivity).
  assert (Ht : lit "hi" <> []) by discriminate.
  assert (Hs : usr_id Sample.alice <> bot_id (bot Sample.env_ok)) by discriminate.
  destruct (authorization_gate Sample.env_ok Sample.private1 Sample.alice (lit "hi")
              (Sample.world_of DatabaseManager.empty_database) Hno Ht Hs)
    as (_ & Hdeny & _).
  rewrite (Hdeny eq_refl eq_refl). reflexivity.
Defined.

(** C4.  The mention gate.  With no operation failing, an authorized message
    in a chat that is not private whose text does not start with the handle
    (compared in lower case) is stored and the run ends there: no inference
    call, no reply.  In a private chat the gate does not apply: every
    authorized message reaches the inference call. *)
Theorem mention_gate (env : Env) (chat : Chat) (sender : User)
    (message_text : str) (w : World) :
  no_raise env ->
  message_text <> [] -> usr_id sender <> bot_id (bot env) ->
  authorized chat sender (db w) = true ->
  let update := text_update chat sender message_text in
  (is_private chat = false -> mentions_bot env message_text = false ->
     handle_message env update w =
       (Ok tt,
        {| db := with_inbound env chat sender message_text
                   (chat_name_of chat sender) (2 + clock w) (db w);
           clock := 3 + clock w;
           trace := trace w ++ [DbIsGroupAllowed (c_id chat);
                                DbGetHistory (c_id chat) (history_limit env);
                                DbStoreMessage (c_id chat) (usr_id sender)
                                  message_text] |})) /\
  (is_private chat = true ->
     exists w',
       handle_message env update w = (Ok tt, w') /\
       inference_calls (trace w') =
         inference_calls (trace w)
           ++ [request_messages env chat sender message_text (db w)]).
Proof.
  intros Hno Ht Hs Hauth update. subst update.
  rewrite handle_message_authorized by (try assumption; apply Hno).
  split.
  - intros Hp Hm. erewrite guarded_pipeline_ok;
      [|apply pipeline_gate_stops; assumption].
    cbn [db clock trace]. unfold auth_event. rewrite Hp.
    rewrite <- app_assoc. reflexivity.
  - intros Hp.
    destruct (pipeline_addressed env chat sender message_text
                (chat_name_of chat sender)
                {| db := db w; clock := S (clock w);
                   trace := trace w ++ [auth_event chat sender] |} Hno)
      as (w' & Hrun & Hcalls).
    { unfold addressed. rewrite Hp. reflexivity. }
    exists w'. split; [apply guarded_pipeline_ok, Hrun|].
    rewrite Hcalls. cbn [db trace]. unfold inference_calls at 1.
    rewrite flat_map_app. fold (inference_calls (trace w)).
    fold (inference_calls [auth_event chat sender]).
    rewrite auth_event_no_inference, app_nil_r. reflexivity.
Qed.

Lemma mention_gate_witness :
  let r := handle_message Sample.env_ok
             (text_update Sample.group5 Sample.alice (lit "good morning"))
             (Sample.world_of Sample.db_open) in
  replies (trace (snd r)) = [] /\ inference_calls (trace (snd r)) = [] /\
  length (DatabaseManager.conversation_history (db (snd r))) = 3%nat.
Proof.
  assert (Hno : no_raise Sample.env_ok) by (intros n; reflexivity).
  assert (Ht : lit "good morning" <> []) by discriminate.
  assert (Hs : usr_id Sample.alice <> bot_id (bot Sample.env_ok)) by discriminate.
  destruct (mention_gate Sample.env_ok Sample.group5 Sample.alice
              (lit "good morning") (Sample.world_of Sample.db_open)
              Hno Ht Hs eq_refl) as (Hstop & _).
  cbv zeta. rewrite (Hstop eq_refl eq_refl). repeat split.
Defined.

Lemma assemble_context_from (env : Env) (history : list DatabaseManager.HistoryEntry) :
  forall messages,
    fold_left (fun messages hm => messages ++ [history_turn env hm]) history messages =
    messages ++ map (history_turn env) history.
Proof.
  induction history as [|hm history IH]; intros messages; simpl.
  - rewrite app_nil_r. reflexivity.
  - rewrite IH, <- app_assoc. reflexivity.
Qed.

(** C9.  Context assembly turns every fetched entry into one turn, in the
    order fetched: ["assistant"] with the message itself when the entry is the
    bot's, ["user"] with ["<full_name>: <message>"] otherwise.  The history is
    read before the current message is stored, so the current message is not
    among the entries; it goes last, as the ["user"] turn holding the prompt. *)
Theorem context_assembly :
  (forall env history,
      assemble_context env history = map (history_turn env) history) /\
  (forall env hm,
      DatabaseManager.user_id hm = bot_id (bot env) ->
      history_turn env hm =
      {| role := lit "assistant"; content := DatabaseManager.message hm |}) /\
  (forall env hm,
      DatabaseManager.user_id hm <> bot_id (bot env) ->
      history_turn env hm =
      {| role := lit "user";
         content := DatabaseManager.full_name hm ++ lit ": "
                      ++ DatabaseManager.message hm |}) /\
  (forall env chat sender message_text w,
      no_raise env ->
      message_text <> [] -> usr_id sender <> bot_id (bot env) ->
      authorized chat sender (db w) = true ->
      addressed env chat message_text = true ->
      ~ In (inbound_row env chat sender message_text (chat_name_of chat sender)
              (2 + clock w) (db w))
           (DatabaseManager.conversation_history (db w)) /\
      exists w',
        handle_message env (text_update chat sender message_text) w = (Ok tt, w') /\
        inference_calls (trace w') =
          inference_calls (trace w)
            ++ [map (history_turn env)
                  (DatabaseManager.get_conversation_history (c_id chat)
                     (history_limit env) (db w))
                ++ [{| role := lit "user";
                       content :=
                         DatabaseManager.fetch_instructions_for_group (c_id chat) (db w)
                           ++ lit (String "010" (String "010" EmptyString))
                           ++ usr_full_name sender ++ lit ": " ++ message_text |}]]).
Proof.
  split; [|split; [|split]].
  - intros env history. unfold assemble_context.
    rewrite assemble_context_from. reflexivity.
  - intros env hm H. unfold history_turn.
    rewrite (proj2 (Z.eqb_eq _ _) H). reflexivity.
  - intros env hm H. unfold history_turn.
    rewrite (proj2 (Z.eqb_neq _ _) H). reflexivity.
  - intros env chat sender message_text w Hno Ht Hs Hauth Haddr. split.
    + intros Hin.
      apply (in_map DatabaseManager.h_id) in Hin.
      apply next_rowid_above in Hin. cbn [inbound_row DatabaseManager.h_id] in Hin.
      lia.
    + rewrite handle_message_authorized by (try assumption; apply Hno).
      destruct (pipeline_addressed env chat sender message_text
                  (chat_name_of chat sender)
                  {| db := db w; clock := S (clock w);
                     trace := trace w ++ [auth_event chat sender] |} Hno Haddr)
        as (w' & Hrun & Hcalls).
      exists w'. split; [apply guarded_pipeline_ok, Hrun|].
      rewrite Hcalls. cbn [db trace]. unfold inference_calls at 1.
      rewrite flat_map_app. fold (inference_calls (trace w)).
      fold (inference_calls [auth_event chat sender]).
      rewrite auth_event_no_inference, app_nil_r.
      unfold request_messages, assemble_context.
      rewrite assemble_context_from. reflexivity.
Qed.

Lemma context_assembly_witness :
  inference_calls
    (trace (snd (handle_message Sample.env_ok
                   (text_update Sample.group5 Sample.alice (lit "@tbot hi"))
                   (Sample.world_of Sample.db_open))))
  = [[ {| role := lit "user"; content := lit "Bob: @tbot ping" |};
       {| role := lit "assistant"; content := lit "pong" |};
       {| role := lit "user";
          content := lit "Be brief." ++ lit (String "010" (String "010" EmptyString))
                       ++ lit "Alice: @tbot hi" |} ]].
Proof.
  assert (Hno : no_raise Sample.env_ok) by (intros n; reflexivity).
  assert (Ht : lit "@tbot hi" <> []) by discriminate.
  assert (Hs : usr_id Sample.alice <> bot_id (bot Sample.env_ok)) by discriminate.
  destruct context_assembly as (_ & _ & _ & Hrun).
  destruct (Hrun Sample.env_ok Sample.group5 Sample.alice (lit "@tbot hi")
              (Sample.world_of Sample.db_open) Hno Ht Hs eq_refl eq_refl)
    as (_ & w' & Hw & Hcalls).
  rewrite Hw. cbn [snd]. rewrite Hcalls. reflexivity.
Defined.




(** C6.  On a table in rowid order and for a positive limit, the history of a
    chat comes back as a window of the chat's rows: the rows it is read from
    are the last [limit] rows stored for the chat, in the order of their
    rowids (oldest first) and all of that chat; it is never longer than the
    limit nor than what is stored; and when more than [limit] rows are stored,
    exactly the oldest ones in excess are left out. *)
Theorem history_sliding_window (db : DatabaseManager.Database) (chat limit : Z) :
  DatabaseManager.rowid_order (DatabaseManager.conversation_history db) ->
  (0 < limit)%Z ->
  let stored := DatabaseManager.rows_of_chat chat db in
  let result := DatabaseManager.get_conversation_history chat limit db in
  let window := skipn (length stored - Z.to_nat limit) stored in
  result = map DatabaseManager.entry_of_row window /\
  DatabaseManager.rowid_order window /\
  (forall e, In e result -> DatabaseManager.chat_id e = chat) /\
  (Z.of_nat (length result) <= limit)%Z /\
  (length result <= length stored)%nat /\
  ((limit < Z.of_nat (length stored))%Z ->
     Z.of_nat (length result) = limit /\
     exists excluded,
       stored = excluded ++ window /\
       Z.of_nat (length excluded) = (Z.of_nat (length stored) - limit)%Z).
Proof.
  intros Hord Hlim stored result window.
  assert (Hres : result = map DatabaseManager.entry_of_row window)
    by (apply get_conversation_history_suffix; [exact Hord | lia]).
  assert (Hlen : length result = (length stored - (length stored - Z.to_nat limit))%nat)
    by (rewrite Hres, length_map; unfold window; apply length_skipn).
  assert (Hsplit : stored = firstn (length stored - Z.to_nat limit) stored ++ window)
    by (symmetry; apply firstn_skipn).
  assert (Hstored : DatabaseManager.rowid_order stored)
    by (apply rowid_order_filter, Hord).
  split; [exact Hres|]. split; [|split; [|split; [|split]]].
  - unfold DatabaseManager.rowid_order in *. unfold window.
    rewrite <- skipn_map. rewrite <- (firstn_skipn (length stored - Z.to_nat limit)
                                       (map DatabaseManager.h_id stored)) in Hstored.
    clear - Hstored.
    induction (firstn (length stored - Z.to_nat limit)
                 (map DatabaseManager.h_id stored)) as [|x l IH];
      [exact Hstored|].
    apply IH. simpl in Hstored. apply StronglySorted_inv in Hstored. apply Hstored.
  - intros e He. rewrite Hres in He. apply in_map_iff in He.
    destruct He as (r & <- & Hr). apply in_skipn_in in Hr.
    apply filter_In in Hr. destruct Hr as [_ Hr]. apply Z.eqb_eq in Hr. exact Hr.
  - lia.
  - lia.
  - intros Hmore. split; [lia|].
    exists (firstn (length stored - Z.to_nat limit) stored).
    split; [exact Hsplit|]. rewrite length_firstn. lia.
Qed.

Lemma history_sliding_window_witness :
  DatabaseManager.get_conversation_history 5 1 Sample.db_open =
  [ {| DatabaseManager.timestamp := lit "t2"; DatabaseManager.chat_id := 5;
       DatabaseManager.chat_name := lit "Room"; DatabaseManager.user_id := 99;
       DatabaseManager.full_name := lit "Tel Lama";
       DatabaseManager.message := lit "pong" |} ].
Proof.
  assert (Hord : DatabaseManager.rowid_order
                   (DatabaseManager.conversation_history Sample.db_open)).
  { unfold DatabaseManager.rowid_order. simpl.
    repeat constructor. }
  destruct (history_sliding_window Sample.db_open 5 1 Hord eq_refl) as (Hres & _).
  rewrite Hres. reflexivity.
Defined.

(** C7.  Round trip.  Storing N messages for a chat and then reading its
    history with a limit of at least N gives back those N entries, in the
    order stored and with every field as stored, preceded by as many earlier
    entries of the chat as the limit still admits; for a chat with no earlier
    entries the result is exactly the N entries. *)
Theorem history_round_trip (db : DatabaseManager.Database) (chat limit : Z)
    (sent : list DatabaseManager.HistoryEntry) :
  DatabaseManager.rowid_order (DatabaseManager.conversation_history db) ->
  (forall e, In e sent -> DatabaseManager.chat_id e = chat) ->
  (Z.of_nat (length sent) <= limit)%Z ->
  DatabaseManager.get_conversation_history chat limit
    (DatabaseManager.store_messages chat sent db) =
    DatabaseManager.get_conversation_history chat (limit - Z.of_nat (length sent)) db
      ++ sent /\
  (DatabaseManager.rows_of_chat chat db = [] ->
   DatabaseManager.get_conversation_history chat limit
     (DatabaseManager.store_messages chat sent db) = sent).
Proof.
  intros Hord Hchat Hlim.
  assert (Hmain :
    DatabaseManager.get_conversation_history chat limit
      (DatabaseManager.store_messages chat sent db) =
    DatabaseManager.get_conversation_history chat (limit - Z.of_nat (length sent)) db
      ++ sent).
  { rewrite get_conversation_history_suffix
      by (try apply rowid_order_store_messages; try assumption; lia).
    rewrite (get_conversation_history_suffix chat _ db) by (try assumption; lia).
    unfold DatabaseManager.rows_of_chat.
    destruct (store_messages_rows chat sent db) as (rows & -> & Hmap & _ & _).
    rewrite filter_app, (rows_all_of_chat chat rows sent Hmap).
    assert (Hn : length rows = length sent).
    { apply (f_equal (@length _)) in Hmap. rewrite !length_map in Hmap. exact Hmap. }
    rewrite length_app, skipn_app.
    set (old := filter (fun r => (DatabaseManager.h_chat_id r =? chat)%Z)
                  (DatabaseManager.conversation_history db)).
    replace (length old + length rows - Z.to_nat limit - length old)%nat
      with 0%nat by lia.
    replace (length old + length rows - Z.to_nat limit)%nat
      with (length old - Z.to_nat (limit - Z.of_nat (length sent)))%nat by lia.
    simpl skipn. rewrite map_app, Hmap, (filed_under_id chat sent Hchat).
    reflexivity. }
  split; [exact Hmain|].
  intros Hnone. rewrite Hmain.
  rewrite (get_conversation_history_suffix chat _ db) by (try assumption; lia).
  rewrite Hnone. rewrite skipn_nil. reflexivity.
Qed.

Lemma history_round_trip_witness :
  DatabaseManager.get_conversation_history 7 2
    (DatabaseManager.store_messages 7
       [ {| DatabaseManager.timestamp := lit "t3"; DatabaseManager.chat_id := 7;
            DatabaseManager.chat_name := lit "Lab"; DatabaseManager.user_id := 1;
            DatabaseManager.full_name := lit "Alice";
            DatabaseManager.message := lit "one" |};
         {| DatabaseManager.timestamp := lit "t4"; DatabaseManager.chat_id := 7;
            DatabaseManager.chat_name := lit "Lab"; DatabaseManager.user_id := 2;
            DatabaseManager.full_name := lit "Bob";
            DatabaseManager.message := lit "two" |} ]
       Sample.db_open)
  = [ {| DatabaseManager.timestamp := lit "t3"; DatabaseManager.chat_id := 7;
         DatabaseManager.chat_name := lit "Lab"; DatabaseManager.user_id := 1;
         DatabaseManager.full_name := lit "Alice";
         DatabaseManager.message := lit "one" |};
      {| DatabaseManager.timestamp := lit "t4"; DatabaseManager.chat_id := 7;
         DatabaseManager.chat_name := lit "Lab"; DatabaseManager.user_id := 2;
         DatabaseManager.full_name := lit "Bob";
         DatabaseManager.message := lit "two" |} ].
Proof.
  apply history_round_trip.
  - unfold DatabaseManager.rowid_order. simpl. repeat constructor.
  - intros e [<-|[<-|[]]]; reflexivity.
  - simpl. lia.
  - reflexivity.
Defined.

(** C8.  Instructions resolve through three tiers and always resolve: the
    text of the first row of the chat if the chat has a row; else the text of
    the first row whose [chat_id] is [NULL] if there is one; else the built-in
    constant. *)
Theorem instructions_three_tiers (db : DatabaseManager.Database) (chat : Z) :
  let rows := DatabaseManager.chat_instructions db in
  let of_chat r := DatabaseManager.i_chat_id r = Some chat in
  let global r := DatabaseManager.i_chat_id r = None in
  ((exists r, In r rows /\ of_chat r) ->
     exists before r after,
       rows = before ++ r :: after /\ of_chat r /\
       (forall x, In x before -> ~ of_chat x) /\
       DatabaseManager.fetch_instructions_for_group chat db =
         DatabaseManager.i_instructions r) /\
  ((forall r, In r rows -> ~ of_chat r) ->
   (exists r, In r rows /\ global r) ->
     exists before r after,
       rows = before ++ r :: after /\ global r /\
       (forall x, In x before -> ~ global x) /\
       DatabaseManager.fetch_instructions_for_group chat db =
         DatabaseManager.i_instructions r) /\
  ((forall r, In r rows -> ~ of_chat r) ->
   (forall r, In r rows -> ~ global r) ->
     DatabaseManager.fetch_instructions_for_group chat db =
       DatabaseManager.DEFAULT_INSTRUCTIONS).
Proof.
  intros rows of_chat global.
  set (is_chat := fun r => match DatabaseManager.i_chat_id r with
                           | Some c => (c =? chat)%Z
                           | None => false
                           end).
  set (is_null := fun r => match DatabaseManager.i_chat_id r with
                           | None => true
                           | Some _ => false
                           end).
  assert (Hchat : forall r, is_chat r = true <-> of_chat r).
  { intros r. unfold is_chat, of_chat.
    destruct (DatabaseManager.i_chat_id r) as [c|].
    - rewrite Z.eqb_eq. split; [intros ->; reflexivity | intros [= ->]; reflexivity].
    - split; discriminate. }
  assert (Hnull : forall r, is_null r = true <-> global r).
  { intros r. unfold is_null, global.
    destruct (DatabaseManager.i_chat_id r); split; try discriminate; reflexivity. }
  assert (Hno : forall (f : DatabaseManager.InstructionRow -> bool) P,
             (forall r, f r = true <-> P r) ->
             (forall r, In r rows -> ~ P r) ->
             DatabaseManager.fetchone (filter f rows) = None).
  { intros f P HfP Hnone. apply fetchone_filter_None. intros y Hy.
    destruct (f y) eqn:E; [|reflexivity].
    exfalso. apply (Hnone y Hy). apply HfP, E. }
  assert (Hyes : forall (f : DatabaseManager.InstructionRow -> bool) (P : _ -> Prop),
             (forall r, f r = true <-> P r) ->
             (exists r, In r rows /\ P r) ->
             exists before r after,
               rows = before ++ r :: after /\ P r /\
               (forall x, In x before -> ~ P x) /\
               DatabaseManager.fetchone (filter f rows) = Some r).
  { intros f P HfP (r0 & Hin & HP).
    destruct (DatabaseManager.fetchone (filter f rows)) as [r|] eqn:F.
    - destruct (proj1 (fetchone_filter_Some f rows r) F)
        as (before & after & Hrows & Hr & Hb).
      exists before, r, after. repeat split; [exact Hrows | apply HfP, Hr |].
      intros x Hx Px. apply HfP in Px. rewrite (Hb x Hx) in Px. discriminate.
    - exfalso. rewrite fetchone_filter_None in F.
      apply HfP in HP. rewrite (F r0 Hin) in HP. discriminate. }
  unfold DatabaseManager.fetch_instructions_for_group,
    DatabaseManager._get_default_instructions.
  fold rows is_chat is_null. rewrite !fetchone_map.
  split; [|split].
  - intros Hex. destruct (Hyes is_chat of_chat Hchat Hex)
      as (before & r & after & Hrows & Hr & Hb & ->).
    exists before, r, after. repeat split; assumption.
  - intros Hnone Hex. rewrite (Hno is_chat of_chat Hchat Hnone).
    destruct (Hyes is_null global Hnull Hex)
      as (before & r & after & Hrows & Hr & Hb & ->).
    exists before, r, after. repeat split; assumption.
  - intros Hnone Hnog.
    rewrite (Hno is_chat of_chat Hchat Hnone), (Hno is_null global Hnull Hnog).
    reflexivity.
Qed.

Lemma instructions_three_tiers_witness :
  DatabaseManager.fetch_instructions_for_group 5 DatabaseManager.empty_database =
  DatabaseManager.DEFAULT_INSTRUCTIONS.
Proof.
  apply (instructions_three_tiers DatabaseManager.empty_database 5);
    intros r [].
Defined.

(** * Further properties *)

(** ** Trimming *)

Lemma lstrip_decompose (s : str) :
  exists ws, s = ws ++ lstrip s /\ forallb is_space ws = true.
Proof.
  induction s as [|c s (ws & Hs & Hws)]; simpl.
  - exists []. split; reflexivity.
  - destruct (is_space c) eqn:E.
    + exists (c :: ws). simpl. rewrite E, Hws. split; [f_equal; exact Hs | reflexivity].
    + exists []. split; reflexivity.
Qed.

Lemma lstrip_head (s : str) (c : char) (t : str) :
  lstrip s = c :: t -> is_space c = false.
Proof.
  induction s as [|x s IH]; simpl; [discriminate|].
  destruct (is_space x) eqn:E; [exact IH|].
  intros [= -> _]. exact E.
Qed.

Lemma lstrip_fixed (c : char) (t : str) :
  is_space c = false -> lstrip (c :: t) = c :: t.
Proof. intros H. simpl. rewrite H. reflexivity. Qed.

Lemma lstrip_spaces (s : str) : forallb is_space s = true -> lstrip s = [].
Proof.
  induction s as [|c s IH]; simpl; [reflexivity|].
  intros H. apply andb_true_iff in H. destruct H as [-> H]. apply IH, H.
Qed.

(** [strip] cuts whitespace off both ends and nothing else. *)
Lemma strip_decompose (s : str) :
  exists l r, s = l ++ strip s ++ r /\
              forallb is_space l = true /\ forallb is_space r = true.
Proof.
  unfold strip, rstrip.
  destruct (lstrip_decompose s) as (l & Hl & Hls).
  destruct (lstrip_decompose (rev (lstrip s))) as (ws & Hr & Hws).
  exists l, (rev ws). repeat split; [|exact Hls|].
  - rewrite <- rev_app_distr, <- Hr, rev_involutive. exact Hl.
  - rewrite forallb_forall in *. intros x Hx. apply Hws, in_rev, Hx.
Qed.

Lemma strip_trimmed (s : str) : trimmed (strip s).
Proof.
  destruct (strip_decompose s) as (l & r & Hs & _).
  unfold strip, rstrip in *.
  destruct (lstrip (rev (lstrip s))) as [|c v] eqn:Hv; [exact I|].
  pose proof (lstrip_head _ _ _ Hv) as Hc.
  destruct (lstrip_decompose (rev (lstrip s))) as (ws & Hr & _).
  rewrite Hv in Hr.
  assert (Hu : lstrip s = rev (c :: v) ++ rev ws)
    by (rewrite <- rev_app_distr, <- Hr, rev_involutive; reflexivity).
  simpl rev in *. destruct (rev v ++ [c]) as [|x t] eqn:Ht.
  - destruct (rev v); discriminate.
  - simpl in Hu. split.
    + apply (lstrip_head _ _ _ Hu).
    + rewrite <- Ht. rewrite last_last. exact Hc.
Qed.

Lemma strip_fixed (s : str) : trimmed s -> strip s = s.
Proof.
  destruct s as [|c t]; [reflexivity|]. intros [Hc Hl].
  unfold strip, rstrip. rewrite (lstrip_fixed c t Hc).
  destruct (rev (c :: t)) as [|x m] eqn:Hr.
  - apply (f_equal (@rev _)) in Hr. rewrite rev_involutive in Hr. discriminate.
  - assert (Hs : c :: t = rev m ++ [x])
      by (rewrite <- (rev_involutive (c :: t)), Hr; reflexivity).
    rewrite Hs, last_last in Hl. rewrite (lstrip_fixed x m Hl).
    simpl. symmetry. exact Hs.
Qed.

Lemma occurs_at_infix (sub l t r : str) (i : nat) :
  occurs_at sub t i -> occurs_at sub (l ++ t ++ r) (length l + i).
Proof.
  unfold occurs_at. intros H. apply startswith_app in H. destruct H as [x Hx].
  apply startswith_app.
  rewrite Nat.add_comm, <- skipn_skipn, skipn_app, Nat.sub_diag, skipn_all.
  simpl. rewrite skipn_app, Hx, <- app_assoc. eexists. reflexivity.
Qed.

Lemma contains_infix (sub l t r : str) :
  contains sub (l ++ t ++ r) = false -> contains sub t = false.
Proof.
  intros H. destruct (contains sub t) eqn:E; [|reflexivity].
  apply contains_occurs in E. destruct E as [i Hi].
  assert (Hc : contains sub (l ++ t ++ r) = true)
    by (apply contains_occurs; eexists; apply occurs_at_infix, Hi).
  congruence.
Qed.

Lemma strip_keeps_absent (sub s : str) :
  contains sub s = false -> contains sub (strip s) = false.
Proof.
  intros H. destruct (strip_decompose s) as (l & r & Hs & _).
  rewrite Hs in H. apply (contains_infix _ _ _ _ H).
Qed.

(** What follows the last cut of [split] holds no closing tag. *)
Lemma split_think_last_clean (fuel : nat) :
  forall s, (length s <= fuel)%nat ->
            contains THINK_CLOSE (last_piece (split_fuel fuel s THINK_CLOSE)) = false.
Proof.
  unfold last_piece.
  induction fuel as [|fuel IH]; intros s Hlen.
  - destruct s; [reflexivity | simpl in Hlen; lia].
  - simpl. destruct (find s THINK_CLOSE) as [k|] eqn:F.
    + rewrite last_cons_nonempty by apply split_fuel_nonempty.
      apply IH. rewrite length_skipn.
      change (length THINK_CLOSE) with 8%nat.
      destruct (find_Some _ _ _ F) as [Hk _].
      unfold occurs_at in Hk. apply startswith_app in Hk. destruct Hk as [r Hr].
      apply (f_equal (@length _)) in Hr.
      rewrite length_skipn, length_app in Hr. simpl in Hr. lia.
    + simpl. unfold contains. rewrite F. reflexivity.
Qed.

Lemma remove_think_clean (answer : str) :
  contains THINK_CLOSE (remove_think answer) = false.
Proof.
  unfold remove_think. destruct (contains THINK_CLOSE answer) eqn:E; [|exact E].
  apply strip_keeps_absent. unfold split. apply split_think_last_clean. lia.
Qed.

Lemma remove_think_trimmed (answer : str) :
  trimmed answer -> trimmed (remove_think answer).
Proof.
  intros H. unfold remove_think.
  destruct (contains THINK_CLOSE answer); [apply strip_trimmed | exact H].
Qed.

(** X1.  A text reply is clean: it has no whitespace at either end, holds no
    closing tag and is not the skip token. *)
Theorem postprocess_answer_clean (raw answer : str) :
  postprocess raw = Answer answer ->
  trimmed answer /\ strip answer = answer /\
  contains THINK_CLOSE answer = false /\ answer <> SKIP_TOKEN.
Proof.
  unfold postprocess.
  destruct (str_eqb (remove_think (strip raw)) SKIP_TOKEN) eqn:E; [discriminate|].
  intros [= <-].
  assert (Ht : trimmed (remove_think (strip raw)))
    by apply remove_think_trimmed, strip_trimmed.
  repeat split.
  - exact Ht.
  - apply strip_fixed, Ht.
  - apply remove_think_clean.
  - intros H. apply str_eqb_eq in H. congruence.
Qed.

Lemma postprocess_answer_clean_witness :
  strip (lit "Hello!") = lit "Hello!" /\
  contains THINK_CLOSE (lit "Hello!") = false.
Proof.
  destruct (postprocess_answer_clean (lit " <think>x</think></think> Hello! ")
              (lit "Hello!") eq_refl) as (_ & H1 & H2 & _).
  split; [exact H1 | exact H2].
Defined.

(** X2.  Output made of whitespace only (the empty output included) is not
    suppressed: it becomes the empty reply text. *)
Theorem postprocess_blank (raw : str) :
  forallb is_space raw = true -> postprocess raw = Answer [].
Proof.
  intros H. unfold postprocess, strip, rstrip.
  rewrite (lstrip_spaces raw H). reflexivity.
Qed.

Lemma postprocess_blank_witness :
  postprocess (lit (String " " (String "010" (String "009" EmptyString)))) = Answer [].
Proof. apply postprocess_blank. reflexivity. Defined.

(** ** More on the persistence store *)

Section StoreMore.

Import DatabaseManager.
Local Open Scope Z_scope.

Lemma sorted_snoc (ids : list Z) (x : Z) :
  StronglySorted Z.lt ids -> (forall y, In y ids -> y < x) ->
  StronglySorted Z.lt (ids ++ [x]).
Proof.
  induction 1 as [|a l _ IH Ha]; intros Hx; simpl.
  - repeat constructor.
  - constructor.
    + apply IH. intros y Hy. apply Hx. right; exact Hy.
    + apply Forall_app. split; [exact Ha|]. constructor; [|constructor].
      apply Hx. left; reflexivity.
Qed.

(** X3.  [get_setting] answers [None] exactly for a name without a row, and
    otherwise with the value of the first row of that name in rowid order. *)
Theorem get_setting_lookup (setting : str) (db : Database) :
  (get_setting setting db = None <->
   forall r, In r (tellama_settings db) -> s_setting r <> setting) /\
  (forall value,
      get_setting setting db = Some value <->
      exists before r after,
        tellama_settings db = before ++ r :: after /\
        s_setting r = setting /\ s_value r = value /\
        forall x, In x before -> s_setting x <> setting).
Proof.
  unfold get_setting. rewrite fetchone_map.
  set (named := fun r => str_eqb (s_setting r) setting).
  assert (Hn : forall r, named r = true <-> s_setting r = setting)
    by (intros r; apply str_eqb_eq).
  assert (Hf : forall r, named r = false <-> s_setting r <> setting).
  { intros r. rewrite <- Hn. destruct (named r); split; congruence. }
  split.
  - destruct (fetchone (filter named (tellama_settings db))) as [r|] eqn:F; simpl.
    + split; [discriminate|]. intros H. exfalso.
      apply fetchone_filter_Some in F. destruct F as (b & a & Hrows & Hr & _).
      apply (H r); [rewrite Hrows; apply in_elt | apply Hn, Hr].
    + split; [|reflexivity]. intros _ r Hr. apply Hf.
      apply (proj1 (fetchone_filter_None named _) F r Hr).
  - intros value. split.
    + destruct (fetchone (filter named (tellama_settings db))) as [r|] eqn:F;
        simpl; [|discriminate].
      intros [= <-]. apply fetchone_filter_Some in F.
      destruct F as (b & a & Hrows & Hr & Hb).
      exists b, r, a. repeat split; [exact Hrows | apply Hn, Hr |].
      intros x Hx. apply Hf, Hb, Hx.
    + intros (b & r & a & Hrows & Hr & Hv & Hb).
      assert (F : fetchone (filter named (tellama_settings db)) = Some r).
      { apply fetchone_filter_Some. exists b, a.
        repeat split; [exact Hrows | apply Hn, Hr |].
        intros y Hy. apply Hf, Hb, Hy. }
      rewrite F. simpl. rewrite Hv. reflexivity.
Qed.

(** X4.  The first write of a name is read back: when a name has no row,
    [set_setting] followed by [get_setting] returns the value written, and the
    name then has exactly one row. *)
Theorem set_setting_new_name (setting value : str) (db : Database) :
  get_setting setting db = None ->
  get_setting setting (set_setting setting value db) = Some value /\
  count_setting setting (set_setting setting value db) = 1%nat.
Proof.
  intros H. split.
  - rewrite get_setting_set_setting, H. reflexivity.
  - rewrite count_setting_set_setting. f_equal.
    unfold get_setting in H. rewrite fetchone_map in H. unfold count_setting.
    destruct (filter (fun r => str_eqb (s_setting r) setting) (tellama_settings db));
      [reflexivity | discriminate].
Qed.

Lemma set_setting_new_name_witness :
  get_setting (lit "internal_error_message")
    (set_setting (lit "internal_error_message") (lit "Oops.") Sample.db_open)
  = Some (lit "Oops.").
Proof.
  apply (set_setting_new_name (lit "internal_error_message") (lit "Oops.")
           Sample.db_open).
  reflexivity.
Defined.

(** X5.  Writing one setting does not change what any other name reads, nor
    any other table. *)
Theorem set_setting_other_name (setting other value : str) (db : Database) :
  other <> setting ->
  get_setting other (set_setting setting value db) = get_setting other db /\
  conversation_history (set_setting setting value db) = conversation_history db /\
  allowed_groups (set_setting setting value db) = allowed_groups db /\
  allowed_users (set_setting setting value db) = allowed_users db /\
  chat_instructions (set_setting setting value db) = chat_instructions db.
Proof.
  intros Hne. split; [|repeat split].
  unfold get_setting. rewrite set_setting_rows, filter_app. simpl.
  destruct (str_eqb setting other) eqn:E.
  - apply str_eqb_eq in E. congruence.
  - rewrite app_nil_r. reflexivity.
Qed.

Lemma set_setting_other_name_witness :
  get_setting (lit "a") (set_setting (lit "b") (lit "v") Sample.db_open) =
  get_setting (lit "a") Sample.db_open.
Proof.
  apply (set_setting_other_name (lit "b") (lit "a") (lit "v") Sample.db_open).
  discriminate.
Defined.

(** X6.  [set_setting] keeps every row there was, in place, and gives the new
    row a rowid above all of them: a table in rowid order stays in rowid
    order, so rowids stay distinct. *)
Theorem set_setting_rowid_order (setting value : str) (db : Database) :
  settings_rowid_order (tellama_settings db) ->
  exists row,
    tellama_settings (set_setting setting value db) = tellama_settings db ++ [row] /\
    s_setting row = setting /\ s_value row = value /\
    (forall r, In r (tellama_settings db) -> s_id r < s_id row) /\
    settings_rowid_order (tellama_settings (set_setting setting value db)) /\
    NoDup (map s_id (tellama_settings (set_setting setting value db))).
Proof.
  intros Hord. rewrite set_setting_rows.
  set (row := {| s_id := next_rowid (map s_id (tellama_settings db));
                 s_setting := setting; s_value := value |}).
  assert (Habove : forall r, In r (tellama_settings db) -> s_id r < s_id row)
    by (intros r Hr; apply next_rowid_above, in_map, Hr).
  assert (Hnew : settings_rowid_order (tellama_settings db ++ [row])).
  { unfold settings_rowid_order in *. rewrite map_app. simpl.
    apply sorted_snoc; [exact Hord|].
    intros y Hy. apply in_map_iff in Hy. destruct Hy as (r & <- & Hr).
    apply (Habove r Hr). }
  exists row. repeat split; try assumption.
  unfold settings_rowid_order in Hnew. clear - Hnew.
  induction Hnew as [|x l _ IH Hx]; constructor; [|exact IH].
  intros Hin. rewrite Forall_forall in Hx. specialize (Hx x Hin). lia.
Qed.

Lemma set_setting_rowid_order_witness :
  NoDup (map s_id
           (tellama_settings
              (set_setting (lit "k") (lit "b")
                 (set_setting (lit "k") (lit "a") empty_database)))).
Proof.
  destruct (set_setting_rowid_order (lit "k") (lit "b")
              (set_setting (lit "k") (lit "a") empty_database))
    as (row & _ & _ & _ & _ & _ & H).
  - unfold settings_rowid_order. simpl. repeat constructor.
  - exact H.
Defined.

(** X7.  Authorization is bare membership: a group (a user) is allowed
    exactly if some row of the allow-list carries its id. *)
Theorem allowed_iff_listed (db : Database) (id : Z) :
  (is_group_allowed id db = true <->
   exists r, In r (allowed_groups db) /\ g_chat_id r = id) /\
  (is_user_allowed id db = true <->
   exists r, In r (allowed_users db) /\ u_user_id r = id).
Proof.
  unfold is_group_allowed, is_user_allowed. rewrite !fetchone_map. split.
  - destruct (fetchone (filter (fun r => g_chat_id r =? id) (allowed_groups db)))
      as [r|] eqn:F; simpl.
    + split; [intros _|reflexivity].
      apply fetchone_filter_Some in F. destruct F as (b & a & Hrows & Hr & _).
      exists r. split; [rewrite Hrows; apply in_elt | apply Z.eqb_eq, Hr].
    + split; [discriminate|]. intros (r & Hin & Hr).
      rewrite fetchone_filter_None in F. specialize (F r Hin).
      apply Z.eqb_neq in F. congruence.
  - destruct (fetchone (filter (fun r => u_user_id r =? id) (allowed_users db)))
      as [r|] eqn:F; simpl.
    + split; [intros _|reflexivity].
      apply fetchone_filter_Some in F. destruct F as (b & a & Hrows & Hr & _).
      exists r. split; [rewrite Hrows; apply in_elt | apply Z.eqb_eq, Hr].
    + split; [discriminate|]. intros (r & Hin & Hr).
      rewrite fetchone_filter_None in F. specialize (F r Hin).
      apply Z.eqb_neq in F. congruence.
Qed.

End StoreMore.

(** ** More on the history table *)

Section HistoryMore.

Import DatabaseManager.
Local Open Scope Z_scope.

Lemma insert_desc_In (r x : HistoryRow) (l : list HistoryRow) :
  In x (insert_desc r l) <-> x = r \/ In x l.
Proof.
  induction l as [|y l IH]; simpl.
  - intuition congruence.
  - destruct (h_id y <=? h_id r); simpl; [intuition congruence|].
    rewrite IH. intuition congruence.
Qed.

Lemma order_by_id_desc_In (x : HistoryRow) (l : list HistoryRow) :
  In x (order_by_id_desc l) <-> In x l.
Proof.
  induction l as [|r l IH]; simpl; [tauto|].
  rewrite insert_desc_In, IH. intuition congruence.
Qed.

Lemma insert_desc_length (r : HistoryRow) (l : list HistoryRow) :
  length (insert_desc r l) = S (length l).
Proof.
  induction l as [|y l IH]; simpl; [reflexivity|].
  destruct (h_id y <=? h_id r); simpl; [reflexivity | rewrite IH; reflexivity].
Qed.

Lemma order_by_id_desc_length (l : list HistoryRow) :
  length (order_by_id_desc l) = length l.
Proof.
  induction l as [|r l IH]; simpl; [reflexivity|].
  rewrite insert_desc_length, IH. reflexivity.
Qed.

Lemma insert_desc_descending (r : HistoryRow) (l : list HistoryRow) :
  StronglySorted Z.ge (map h_id l) ->
  StronglySorted Z.ge (map h_id (insert_desc r l)).
Proof.
  induction l as [|y l IH]; simpl; intros H.
  - repeat constructor.
  - apply StronglySorted_inv in H. destruct H as [Hl Hy].
    destruct (h_id y <=? h_id r) eqn:E.
    + apply Z.leb_le in E. simpl. constructor; [constructor; assumption|].
      constructor; [lia|]. rewrite Forall_forall in *.
      intros x Hx. specialize (Hy x Hx). lia.
    + apply Z.leb_gt in E. simpl. constructor; [apply IH, Hl|].
      rewrite Forall_forall in *. intros x Hx. apply in_map_iff in Hx.
      destruct Hx as (z & <- & Hz). apply insert_desc_In in Hz.
      destruct Hz as [->|Hz]; [lia | apply Hy, in_map, Hz].
Qed.

Lemma order_by_id_desc_descending (l : list HistoryRow) :
  StronglySorted Z.ge (map h_id (order_by_id_desc l)).
Proof.
  induction l as [|r l IH]; simpl; [constructor|].
  apply insert_desc_descending, IH.
Qed.

Lemma sorted_ge_firstn (n : nat) (ids : list Z) :
  StronglySorted Z.ge ids -> StronglySorted Z.ge (firstn n ids).
Proof.
  intros H. revert n.
  induction H as [|y l Hl IH Hy]; intros [|n]; simpl; try constructor.
  - apply IH.
  - rewrite Forall_forall in *. intros x Hx. apply Hy.
    rewrite <- (firstn_skipn n l). apply in_or_app. left; exact Hx.
Qed.

Lemma sorted_le_snoc (ids : list Z) (x : Z) :
  StronglySorted Z.le ids -> (forall y, In y ids -> y <= x) ->
  StronglySorted Z.le (ids ++ [x]).
Proof.
  induction 1 as [|a l _ IH Ha]; intros Hx; simpl.
  - repeat constructor.
  - constructor.
    + apply IH. intros y Hy. apply Hx. right; exact Hy.
    + apply Forall_app. split; [exact Ha|]. constructor; [|constructor].
      apply Hx. left; reflexivity.
Qed.

Lemma sorted_ge_rev (ids : list Z) :
  StronglySorted Z.ge ids -> StronglySorted Z.le (rev ids).
Proof.
  induction 1 as [|y l _ IH Hy]; simpl; [constructor|].
  apply sorted_le_snoc; [exact IH|].
  intros x Hx. apply in_rev in Hx. rewrite Forall_forall in Hy.
  specialize (Hy x Hx). lia.
Qed.

Lemma sql_limit_In {A} (n : Z) (l : list A) (x : A) :
  In x (sql_limit n l) -> In x l.
Proof.
  unfold sql_limit. destruct (n <? 0); [tauto|].
  intros H. rewrite <- (firstn_skipn (Z.to_nat n) l). apply in_or_app.
  left; exact H.
Qed.

Lemma sql_limit_length {A} (n : Z) (l : list A) :
  (length (sql_limit n l) <= length l)%nat.
Proof.
  unfold sql_limit. destruct (n <? 0); [lia|]. rewrite length_firstn. lia.
Qed.

Lemma sql_limit_sorted (n : Z) (l : list HistoryRow) :
  StronglySorted Z.ge (map h_id l) ->
  StronglySorted Z.ge (map h_id (sql_limit n l)).
Proof.
  unfold sql_limit. destruct (n <? 0); [tauto|].
  intros H. rewrite <- firstn_map. apply sorted_ge_firstn, H.
Qed.

(** X8.  Whatever the table holds and whatever the limit, the history read
    for a chat consists of rows stored for that chat, fields unchanged, never
    more than are stored, ordered by rowid with the oldest first; a limit of
    0 gives the empty history. *)
Theorem history_only_own_rows (db : Database) (chat limit : Z) :
  exists window,
    get_conversation_history chat limit db = map entry_of_row window /\
    (forall r, In r window ->
               In r (conversation_history db) /\ h_chat_id r = chat) /\
    (length window <= length (rows_of_chat chat db))%nat /\
    StronglySorted Z.le (map h_id window) /\
    (limit = 0 -> window = []).
Proof.
  set (picked := sql_limit limit (order_by_id_desc (rows_of_chat chat db))).
  assert (Hin : forall r, In r picked ->
                          In r (conversation_history db) /\ h_chat_id r = chat).
  { intros r Hr. apply sql_limit_In in Hr.
    apply (proj1 (order_by_id_desc_In _ _)) in Hr. unfold rows_of_chat in Hr.
    apply filter_In in Hr. destruct Hr as [H1 H2].
    split; [exact H1 | apply Z.eqb_eq, H2]. }
  exists (rev picked). repeat split.
  - unfold get_conversation_history. fold (rows_of_chat chat db). fold picked.
    rewrite <- map_rev, map_map. apply map_ext_in. intros r Hr.
    apply history_dict_select. apply in_rev in Hr. apply (Hin r Hr).
  - apply (Hin r), in_rev, H.
  - apply (Hin r), in_rev, H.
  - rewrite length_rev. unfold picked.
    rewrite <- (order_by_id_desc_length (rows_of_chat chat db)).
    apply sql_limit_length.
  - rewrite map_rev. apply sorted_ge_rev. unfold picked.
    apply sql_limit_sorted, order_by_id_desc_descending.
  - intros ->. reflexivity.
Qed.

(** X9.  Chats are isolated: storing a message for one chat leaves the
    history read for any other chat as it was, for every limit. *)
Theorem store_message_other_chat (utc_time : str) (chat other : Z)
    (name : str) (user : Z) (full message_text : str) (limit : Z) (db : Database) :
  other <> chat ->
  get_conversation_history other limit
    (store_message utc_time chat name user full message_text db) =
  get_conversation_history other limit db.
Proof.
  intros Hne. unfold get_conversation_history, store_message. simpl.
  rewrite filter_app. simpl.
  destruct (chat =? other) eqn:E; [apply Z.eqb_eq in E; congruence|].
  rewrite app_nil_r. reflexivity.
Qed.

Lemma store_message_other_chat_witness :
  get_conversation_history 5 10
    (store_message (lit "t9") 6 (lit "Lab") 1 (lit "Alice") (lit "hi") Sample.db_open)
  = get_conversation_history 5 10 Sample.db_open.
Proof.
  apply (store_message_other_chat (lit "t9") 6 5). discriminate.
Defined.

(** X10.  [store_message] appends exactly one row carrying its arguments,
    with a rowid above every rowid in the table, and touches nothing else: the
    earlier rows stay in place, a table in rowid order stays in rowid order,
    and the other four tables are unchanged. *)
Theorem store_message_appends (utc_time : str) (chat : Z) (name : str)
    (user : Z) (full message_text : str) (db : Database) :
  let db' := store_message utc_time chat name user full message_text db in
  exists row,
    conversation_history db' = conversation_history db ++ [row] /\
    entry_of_row row =
      {| timestamp := utc_time; chat_id := chat; chat_name := name;
         user_id := user; full_name := full; message := message_text |} /\
    (forall r, In r (conversation_history db) -> h_id r < h_id row) /\
    (rowid_order (conversation_history db) ->
     rowid_order (conversation_history db')) /\
    tellama_settings db' = tellama_settings db /\
    allowed_groups db' = allowed_groups db /\
    allowed_users db' = allowed_users db /\
    chat_instructions db' = chat_instructions db.
Proof.
  intros db'. subst db'. unfold store_message. simpl.
  eexists. split; [reflexivity|]. split; [reflexivity|].
  assert (Habove : forall r, In r (conversation_history db) ->
                             h_id r < next_rowid (map h_id (conversation_history db)))
    by (intros r Hr; apply next_rowid_above, in_map, Hr).
  split; [exact Habove|]. split; [|repeat split].
  intros Hord. apply rowid_order_app; [exact Hord | repeat constructor |].
  intros x y Hx [<-|[]]. simpl. apply Habove, Hx.
Qed.

End HistoryMore.

(** ** More on whole runs *)

(** Whatever fails, the [try] body changes the database by at most two
    [store_message] calls for the chat of the event. *)
Lemma pipeline_stores (env : Env) (chat : Chat) (sender : User)
    (message_text chat_name : str) (w w' : World) (r : Result unit) :
  pipeline env chat sender message_text chat_name w = (r, w') ->
  exists sent,
    (length sent <= 2)%nat /\
    db w' = DatabaseManager.store_messages (c_id chat) sent (db w).
Proof.
  run_ops. intros H. split_run;
    first
      [ exists []; split; [simpl; lia | reflexivity]
      | exists [inbound_entry env chat sender message_text chat_name (S (clock w))];
        split; [simpl; lia | reflexivity]
      | eexists [inbound_entry env chat sender message_text chat_name (S (clock w));
                 outbound_entry env chat chat_name _ _];
        split; [simpl; lia | reflexivity] ].
Qed.

Lemma on_error_db (env : Env) (w w' : World) (r : Result unit) :
  on_error env w = (r, w') -> db w' = db w.
Proof. run_ops. intros H. split_run; reflexivity. Qed.

Lemma guarded_pipeline_stores (env : Env) (chat : Chat) (sender : User)
    (message_text chat_name : str) (w w' : World) (r : Result unit) :
  guarded_pipeline env chat sender message_text chat_name w = (r, w') ->
  exists sent,
    (length sent <= 2)%nat /\
    db w' = DatabaseManager.store_messages (c_id chat) sent (db w).
Proof.
  unfold guarded_pipeline, try_except.
  destruct (pipeline env chat sender message_text chat_name w) as [[[]| |] w1] eqn:Hp;
    intros H.
  - injection H as <- <-. apply (pipeline_stores _ _ _ _ _ _ _ _ Hp).
  - apply on_error_db in H. rewrite H. apply (pipeline_stores _ _ _ _ _ _ _ _ Hp).
  - injection H as <- <-. apply (pipeline_stores _ _ _ _ _ _ _ _ Hp).
Qed.

Lemma handle_message_stores (env : Env) (update : Update) (w w' : World)
    (r : Result unit) :
  handle_message env update w = (r, w') ->
  exists chat sent,
    (length sent <= 2)%nat /\
    db w' = DatabaseManager.store_messages chat sent (db w) /\
    (sent <> [] -> option_map c_id (effective_chat update) = Some chat).
Proof.
  assert (Hnone : forall w0, db w0 = db w ->
            exists chat sent,
              (length sent <= 2)%nat /\
              db w0 = DatabaseManager.store_messages chat sent (db w) /\
              (sent <> [] -> option_map c_id (effective_chat update) = Some chat)).
  { intros w0 H0. exists 0%Z, []. repeat split; [simpl; lia | exact H0 | congruence]. }
  assert (Hguard : forall chat sender message_text chat_name w0,
            effective_chat update = Some chat -> db w0 = db w ->
            guarded_pipeline env chat sender message_text chat_name w0 = (r, w') ->
            exists c sent,
              (length sent <= 2)%nat /\
              db w' = DatabaseManager.store_messages c sent (db w) /\
              (sent <> [] -> option_map c_id (effective_chat update) = Some c)).
  { intros chat sender message_text chat_name w0 Hc H0 Hg.
    apply guarded_pipeline_stores in Hg. destruct Hg as (sent & Hlen & Hdb).
    exists (c_id chat), sent. rewrite <- H0.
    repeat split; [exact Hlen | exact Hdb | intros _; rewrite Hc; reflexivity]. }
  unfold handle_message.
  destruct (effective_chat update) as [chat|] eqn:Hc;
    [|intros [= <- <-]; apply Hnone; reflexivity].
  destruct (effective_message update) as [message|];
    [|intros [= <- <-]; apply Hnone; reflexivity].
  destruct (truthy (text message)) as [message_text|];
    [|intros [= <- <-]; apply Hnone; reflexivity].
  destruct (from_user message) as [sender|];
    [|intros [= <- <-]; apply Hnone; reflexivity].
  destruct (usr_id sender =? bot_id (bot env))%Z;
    [intros [= <- <-]; apply Hnone; reflexivity|].
  destruct (is_private chat).
  - unfold bind at 1. unfold db_read at 1, external.
    destruct (raises env (clock w));
      [intros [= <- <-]; apply Hnone; reflexivity|].
    destruct (DatabaseManager.is_user_allowed (usr_id sender) (db w)); cbn [negb].
    + apply Hguard; reflexivity.
    + run_ops. intros H. split_run; apply Hnone; reflexivity.
  - unfold bind at 1. unfold db_read at 1, external.
    destruct (raises env (clock w));
      [intros [= <- <-]; apply Hnone; reflexivity|].
    destruct (DatabaseManager.is_group_allowed (c_id chat) (db w)); cbn [negb].
    + apply Hguard; reflexivity.
    + unfold ret. intros [= <- <-]. apply Hnone; reflexivity.
Qed.

Lemma store_messages_other_tables (chat : Z) (sent : list DatabaseManager.HistoryEntry) :
  forall d,
    DatabaseManager.tellama_settings (DatabaseManager.store_messages chat sent d) =
      DatabaseManager.tellama_settings d /\
    DatabaseManager.allowed_groups (DatabaseManager.store_messages chat sent d) =
      DatabaseManager.allowed_groups d /\
    DatabaseManager.allowed_users (DatabaseManager.store_messages chat sent d) =
      DatabaseManager.allowed_users d /\
    DatabaseManager.chat_instructions (DatabaseManager.store_messages chat sent d) =
      DatabaseManager.chat_instructions d.
Proof.
  induction sent as [|e sent IH]; intros d; [repeat split|].
  change (DatabaseManager.store_messages chat (e :: sent) d)
    with (DatabaseManager.store_messages chat sent
            (DatabaseManager.store_message (DatabaseManager.timestamp e) chat
               (DatabaseManager.chat_name e) (DatabaseManager.user_id e)
               (DatabaseManager.full_name e) (DatabaseManager.message e) d)).
  destruct (IH (DatabaseManager.store_message (DatabaseManager.timestamp e) chat
                  (DatabaseManager.chat_name e) (DatabaseManager.user_id e)
                  (DatabaseManager.full_name e) (DatabaseManager.message e) d))
    as (H1 & H2 & H3 & H4).
  rewrite H1, H2, H3, H4. repeat split.
Qed.

(** X11.  Whatever the event and whatever fails, one run of [handle_message]
    leaves the settings, both allow-lists and the instructions as they were,
    and with them every answer of [get_setting], [is_user_allowed],
    [is_group_allowed] and [fetch_instructions_for_group]. *)
Theorem handle_message_keeps_configuration (env : Env) (update : Update) (w : World) :
  let d := db w in
  let d' := db (snd (handle_message env update w)) in
  DatabaseManager.tellama_settings d' = DatabaseManager.tellama_settings d /\
  DatabaseManager.allowed_groups d' = DatabaseManager.allowed_groups d /\
  DatabaseManager.allowed_users d' = DatabaseManager.allowed_users d /\
  DatabaseManager.chat_instructions d' = DatabaseManager.chat_instructions d /\
  (forall setting,
      DatabaseManager.get_setting setting d' = DatabaseManager.get_setting setting d) /\
  (forall user,
      DatabaseManager.is_user_allowed user d' = DatabaseManager.is_user_allowed user d) /\
  (forall chat,
      DatabaseManager.is_group_allowed chat d' = DatabaseManager.is_group_allowed chat d) /\
  (forall chat,
      DatabaseManager.fetch_instructions_for_group chat d' =
      DatabaseManager.fetch_instructions_for_group chat d).
Proof.
  intros d d'. subst d d'.
  destruct (handle_message env update w) as [r w'] eqn:H. cbn [snd].
  apply handle_message_stores in H. destruct H as (chat & sent & _ & -> & _).
  destruct (store_messages_other_tables chat sent (db w)) as (H1 & H2 & H3 & H4).
  repeat split; try assumption; intros x.
  - unfold DatabaseManager.get_setting. rewrite H1. reflexivity.
  - unfold DatabaseManager.is_user_allowed. rewrite H3. reflexivity.
  - unfold DatabaseManager.is_group_allowed. rewrite H2. reflexivity.
  - unfold DatabaseManager.fetch_instructions_for_group,
      DatabaseManager._get_default_instructions. rewrite H4. reflexivity.
Qed.

(** X12.  History is append-only under [handle_message]: whatever the event
    and whatever fails, the rows that were there stay in place, at most two
    rows are added, all of them for the chat of the event and with rowids
    above the earlier ones, and a table in rowid order stays in rowid order. *)
Theorem handle_message_appends_history (env : Env) (update : Update) (w : World) :
  let old := DatabaseManager.conversation_history (db w) in
  exists rows,
    DatabaseManager.conversation_history (db (snd (handle_message env update w))) =
      old ++ rows /\
    (length rows <= 2)%nat /\
    (forall r, In r rows ->
               option_map c_id (effective_chat update) = Some (DatabaseManager.h_chat_id r)) /\
    (forall x y, In x old -> In y rows ->
                 (DatabaseManager.h_id x < DatabaseManager.h_id y)%Z) /\
    (DatabaseManager.rowid_order old -> DatabaseManager.rowid_order (old ++ rows)).
Proof.
  intros old. subst old.
  destruct (handle_message env update w) as [r w'] eqn:H. cbn [snd].
  apply handle_message_stores in H. destruct H as (chat & sent & Hlen & -> & Hchat).
  destruct (store_messages_rows chat sent (db w)) as (rows & Hrows & Hmap & Hord & Hlt).
  assert (Hn : length rows = length sent).
  { apply (f_equal (@length _)) in Hmap. rewrite !length_map in Hmap. exact Hmap. }
  exists rows. repeat split.
  - exact Hrows.
  - lia.
  - intros r0 Hr0. rewrite Hchat by (destruct sent; [destruct rows; [destruct Hr0 | discriminate] | discriminate]).
    f_equal.
    apply (in_map DatabaseManager.entry_of_row) in Hr0. rewrite Hmap in Hr0.
    apply in_map_iff in Hr0. destruct Hr0 as (e & He & _).
    apply (f_equal DatabaseManager.chat_id) in He. simpl in He. congruence.
  - exact Hlt.
  - intros Ho. apply rowid_order_app; assumption.
Qed.

(** X13.  Events that are not a text message from someone else are ignored
    without touching anything: no chat, no message, no or empty text, no
    sender, or the bot itself as sender.  No operation is even attempted. *)
Theorem handle_message_ignores (env : Env) (update : Update) (w : World) :
  effective_chat update = None \/
  effective_message update = None \/
  (exists message,
      effective_message update = Some message /\
      (text message = None \/ text message = Some [] \/
       from_user message = None \/
       exists sender, from_user message = Some sender /\
                      usr_id sender = bot_id (bot env))) ->
  handle_message env update w = (Ok tt, w).
Proof.
  unfold handle_message. intros [H|[H|(message & H & Hm)]]; rewrite H.
  - reflexivity.
  - destruct (effective_chat update); reflexivity.
  - destruct (effective_chat update); [|reflexivity].
    destruct Hm as [Ht|[Ht|[Hs|(sender & Hs & Hid)]]].
    + rewrite Ht. reflexivity.
    + rewrite Ht. reflexivity.
    + rewrite Hs. destruct (truthy (text message)); reflexivity.
    + rewrite Hs. destruct (truthy (text message)); [|reflexivity].
      rewrite (proj2 (Z.eqb_eq _ _) Hid). reflexivity.
Qed.

Lemma handle_message_ignores_witness :
  handle_message Sample.env_ok
    (text_update Sample.group5
       {| usr_id := 99; usr_full_name := lit "Tel Lama" |} (lit "@tbot hi"))
    (Sample.world_of Sample.db_open)
  = (Ok tt, Sample.world_of Sample.db_open).
Proof.
  apply handle_message_ignores. right. right. eexists. split; [reflexivity|].
  right. right. right. eexists. split; reflexivity.
Defined.

(** X14.  An answered turn.  With no operation failing, an authorized and
    addressed message whose post-processed answer is a text gets that text as
    its single reply, and the database gains exactly two rows, the inbound
    message and then the reply under the bot's identity and display name; the
    inbound row is written before the inference call and the reply is sent
    before its row is written. *)
Theorem handle_message_answers (env : Env) (chat : Chat) (sender : User)
    (message_text answer : str) (w : World) :
  no_raise env ->
  message_text <> [] -> usr_id sender <> bot_id (bot env) ->
  authorized chat sender (db w) = true ->
  addressed env chat message_text = true ->
  postprocess
    (ollama_content env (request_messages env chat sender message_text (db w)))
    = Answer answer ->
  handle_message env (text_update chat sender message_text) w =
  (Ok tt,
   {| db := DatabaseManager.store_messages (c_id chat)
              [inbound_entry env chat sender message_text
                 (chat_name_of chat sender) (2 + clock w);
               outbound_entry env chat (chat_name_of chat sender) answer
                 (7 + clock w)]
              (db w);
      clock := 8 + clock w;
      trace := trace w ++
                 [auth_event chat sender;
                  DbGetHistory (c_id chat) (history_limit env);
                  DbStoreMessage (c_id chat) (usr_id sender) message_text;
                  DbFetchInstructions (c_id chat);
                  OllamaChat (request_messages env chat sender message_text (db w));
                  ReplyText answer; GetMe;
                  DbStoreMessage (c_id chat) (bot_id (bot env)) answer] |}).
Proof.
  intros Hno Ht Hs Hauth Haddr Hans.
  rewrite handle_message_authorized by (try assumption; apply Hno).
  erewrite guarded_pipeline_ok;
    [|apply (pipeline_answers _ _ _ _ _ answer);
      [assumption | apply orb_true_iff; exact Haddr | exact Hans]].
  cbn [db clock trace]. rewrite <- app_assoc. reflexivity.
Qed.

Lemma handle_message_answers_witness :
  let r := handle_message Sample.env_ok
             (text_update Sample.group5 Sample.alice (lit "@tbot hi"))
             (Sample.world_of Sample.db_open) in
  replies (trace (snd r)) = [lit "Hello!"] /\
  length (DatabaseManager.conversation_history (db (snd r))) = 4%nat.
Proof.
  assert (Hno : no_raise Sample.env_ok) by (intros n; reflexivity).
  assert (Ht : lit "@tbot hi" <> []) by discriminate.
  assert (Hs : usr_id Sample.alice <> bot_id (bot Sample.env_ok)) by discriminate.
  cbv zeta.
  rewrite (handle_message_answers Sample.env_ok Sample.group5 Sample.alice
             (lit "@tbot hi") (lit "Hello!") (Sample.world_of Sample.db_open)
             Hno Ht Hs eq_refl eq_refl eq_refl).
  split; reflexivity.
Defined.

Lemma handle_message_start (env : Env) (chat : Chat) (sender : User)
    (message_text : str) :
  message_text <> [] -> usr_id sender <> bot_id (bot env) ->
  handle_message env (text_update chat sender message_text) =
  if is_private chat then
    allowed <-
      db_read env (DbIsUserAllowed (usr_id sender))
        (DatabaseManager.is_user_allowed (usr_id sender)) ;;
    if negb allowed then
      configured <-
        db_read env (DbGetSetting (lit "private_chat_disallowed_message"))
          (DatabaseManager.get_setting (lit "private_chat_disallowed_message")) ;;
      reply_text env
        match configured with
        | Some private_chat_disallowed_message => private_chat_disallowed_message
        | None => PRIVATE_CHAT_DISALLOWED
        end
    else guarded_pipeline env chat sender message_text (chat_name_of chat sender)
  else
    allowed <-
      db_read env (DbIsGroupAllowed (c_id chat))
        (DatabaseManager.is_group_allowed (c_id chat)) ;;
    if negb allowed then ret tt
    else guarded_pipeline env chat sender message_text (chat_name_of chat sender).
Proof.
  intros Ht Hs. unfold handle_message, text_update, chat_name_of.
  cbn [effective_chat effective_message text from_user].
  destruct message_text as [|c t]; [congruence|]. cbn [truthy].
  apply Z.eqb_neq in Hs. rewrite Hs.
  destruct (is_private chat); reflexivity.
Qed.

(** X15.  The authorization check and the denial reply run outside the
    [try]: when the check raises, or when on a private denial the reading of
    the setting or the sending of the denial raises (an [Exception] or a
    cancellation alike), the exception leaves [handle_message]; no reply is
    sent, nothing is written, and the error handler is not run. *)
Theorem authorization_errors_propagate (env : Env) (chat : Chat) (sender : User)
    (message_text : str) (w : World) :
  message_text <> [] -> usr_id sender <> bot_id (bot env) ->
  let update := text_update chat sender message_text in
  (raises env (clock w) = true ->
     handle_message env update w =
       (Raised, {| db := db w; clock := 1 + clock w; trace := trace w |})) /\
  (raises env (clock w) = false -> is_private chat = true ->
   DatabaseManager.is_user_allowed (usr_id sender) (db w) = false ->
     (raises env (1 + clock w) = true ->
        handle_message env update w =
          (Raised, {| db := db w; clock := 2 + clock w;
                      trace := trace w ++ [DbIsUserAllowed (usr_id sender)] |})) /\
     (raises env (1 + clock w) = false -> raises env (2 + clock w) = true ->
        handle_message env update w =
          (if cancels env (2 + clock w) then Cancelled else Raised,
           {| db := db w; clock := 3 + clock w;
              trace := trace w ++
                         [DbIsUserAllowed (usr_id sender);
                          DbGetSetting (lit "private_chat_disallowed_message")] |}))).
Proof.
  intros Ht Hs update. subst update. rewrite (handle_message_start _ _ _ _ Ht Hs).
  cbn [Nat.add]. split.
  - intros H0. destruct (is_private chat); run_ops; rewrite H0; reflexivity.
  - intros H0 Hp Hd. rewrite Hp. split.
    + intros H1. run_ops. rewrite H0, Hd. cbn [negb db clock trace].
      rewrite H1. reflexivity.
    + intros H1 H2. run_ops. rewrite H0, Hd. cbn [negb db clock trace].
      rewrite H1. cbn [db clock trace]. rewrite H2.
      rewrite <- app_assoc. reflexivity.
Qed.

Lemma authorization_errors_propagate_witness :
  fst (handle_message (Sample.env_failing 0)
         (text_update Sample.group5 Sample.alice (lit "@tbot hi"))
         (Sample.world_of Sample.db_open)) = Raised.
Proof.
  assert (Ht : lit "@tbot hi" <> []) by discriminate.
  assert (Hs : usr_id Sample.alice <> bot_id (bot (Sample.env_failing 0)))
    by discriminate.
  destruct (authorization_errors_propagate (Sample.env_failing 0) Sample.group5
              Sample.alice (lit "@tbot hi") (Sample.world_of Sample.db_open) Ht Hs)
    as (H & _).
  rewrite (H eq_refl). reflexivity.
Defined.

(** X16.  The mention gate comes after the history read and the inbound
    write, inside the [try]: in an authorized group, when one of these two
    operations raises, the error reply is sent whether or not the message
    mentions the bot. *)
Theorem group_storage_failure_replies (env : Env) (chat : Chat) (sender : User)
    (message_text : str) (w : World) :
  message_text <> [] -> usr_id sender <> bot_id (bot env) ->
  is_private chat = false ->
  DatabaseManager.is_group_allowed (c_id chat) (db w) = true ->
  raises env (clock w) = false ->
  let update := text_update chat sender message_text in
  (raises env (1 + clock w) = true ->
   raises env (2 + clock w) = false -> raises env (3 + clock w) = false ->
     handle_message env update w =
       (Ok tt,
        {| db := db w; clock := 4 + clock w;
           trace := trace w ++ [DbIsGroupAllowed (c_id chat);
                                DbGetSetting (lit "internal_error_message");
                                ReplyText (error_text (db w))] |})) /\
  (raises env (1 + clock w) = false -> raises env (2 + clock w) = true ->
   raises env (3 + clock w) = false -> raises env (4 + clock w) = false ->
     handle_message env update w =
       (Ok tt,
        {| db := db w; clock := 5 + clock w;
           trace := trace w ++ [DbIsGroupAllowed (c_id chat);
                                DbGetHistory (c_id chat) (history_limit env);
                                DbGetSetting (lit "internal_error_message");
                                ReplyText (error_text (db w))] |})).
Proof.
  intros Ht Hs Hp Ha H0 update. subst update.
  rewrite (handle_message_start _ _ _ _ Ht Hs), Hp. cbn [Nat.add].
  split.
  - intros H1 H2 H3. run_ops. rewrite H0, Ha. cbn [negb db clock trace].
    rewrite H1. cbn [db clock trace]. rewrite H2. cbn [db clock trace].
    rewrite H3. cbn [db clock trace]. rewrite <- !app_assoc. reflexivity.
  - intros H1 H2 H3 H4. run_ops. rewrite H0, Ha. cbn [negb db clock trace].
    rewrite H1. cbn [db clock trace fst snd]. rewrite H2. cbn [db clock trace].
    rewrite H3. cbn [db clock trace]. rewrite H4. cbn [db clock trace].
    rewrite <- !app_assoc. reflexivity.
Qed.

Lemma group_storage_failure_replies_witness :
  replies
    (trace (snd (handle_message (Sample.env_failing 1)
                   (text_update Sample.group5 Sample.alice (lit "good morning"))
                   (Sample.world_of Sample.db_open))))
  = [INTERNAL_ERROR].
Proof.
  assert (Ht : lit "good morning" <> []) by discriminate.
  assert (Hs : usr_id Sample.alice <> bot_id (bot (Sample.env_failing 1)))
    by discriminate.
  destruct (group_storage_failure_replies (Sample.env_failing 1) Sample.group5
              Sample.alice (lit "good morning") (Sample.world_of Sample.db_open)
              Ht Hs eq_refl eq_refl eq_refl) as (H & _).
  rewrite (H eq_refl eq_refl eq_refl). reflexivity.
Defined.

(** The [try] body up to the sending of the answer. *)
Lemma pipeline_fails_after_reply (env : Env) (chat : Chat) (sender : User)
    (message_text chat_name answer : str) (w : World) :
  addressed env chat message_text = true ->
  postprocess
    (ollama_content env (request_messages env chat sender message_text (db w)))
    = Answer answer ->
  (forall k, (k <= 4)%nat -> raises env (k + clock w) = false) ->
  let stored := with_inbound env chat sender message_text chat_name
                  (S (clock w)) (db w) in
  let done := [DbGetHistory (c_id chat) (history_limit env);
               DbStoreMessage (c_id chat) (usr_id sender) message_text;
               DbFetchInstructions (c_id chat);
               OllamaChat (request_messages env chat sender message_text (db w));
               ReplyText answer] in
  (raises env (5 + clock w) = true ->
     pipeline env chat sender message_text chat_name w =
       (if cancels env (5 + clock w) then Cancelled else Raised,
        {| db := stored; clock := 6 + clock w; trace := trace w ++ done |})) /\
  (raises env (5 + clock w) = false -> raises env (6 + clock w) = true ->
     pipeline env chat sender message_text chat_name w =
       (Raised, {| db := stored; clock := 7 + clock w;
                   trace := trace w ++ done ++ [GetMe] |})).
Proof.
  intros Haddr Hans Hok stored done. subst stored done.
  pose proof (Hok 0%nat ltac:(lia)) as H0. pose proof (Hok 1%nat ltac:(lia)) as H1.
  pose proof (Hok 2%nat ltac:(lia)) as H2. pose proof (Hok 3%nat ltac:(lia)) as H3.
  pose proof (Hok 4%nat ltac:(lia)) as H4. clear Hok.
  cbn [Nat.add] in *.
  assert (Hg : negb (is_private chat) && negb (mentions_bot env message_text) = false)
    by (rewrite negb_gate, Haddr; reflexivity).
  assert (Hcommon :
    forall P : Result unit * World -> Prop,
      (forall w5,
          w5 = {| db := with_inbound env chat sender message_text chat_name
                          (S (clock w)) (db w);
                  clock := S (S (S (S (S (clock w)))));
                  trace := (((((trace w ++ [DbGetHistory (c_id chat) (history_limit env)])
                                 ++ [DbStoreMessage (c_id chat) (usr_id sender) message_text])
                                ++ [DbFetchInstructions (c_id chat)])
                               ++ [OllamaChat (request_messages env chat sender
                                                 message_text (db w))])
                              ++ [ReplyText answer]) |} ->
          P ((bot_user <- get_me env ;;
              db_store_message env (c_id chat) chat_name (bot_id (bot env))
                (join (lit " ")
                   (flat_map (fun part => match truthy part with
                                          | Some p => [p]
                                          | None => []
                                          end)
                             [Some (fst bot_user); snd bot_user]))
                answer) w5)) ->
      P (pipeline env chat sender message_text chat_name w)).
  { intros P HP. unfold pipeline.
    unfold bind at 1. unfold db_read at 1, external at 1. rewrite H0.
    unfold bind at 1. unfold db_store_message at 1, external at 1.
    cbn [db clock trace]. rewrite H1. rewrite Hg.
    unfold bind at 1. unfold db_read at 1, external at 1.
    cbn [db clock trace]. rewrite H2.
    unfold bind at 1. unfold ollama_chat at 1, awaited at 1.
    cbn [db clock trace].  rewrite H3.
    change (DatabaseManager.store_message (utc_now env (S (clock w))) (c_id chat)
              chat_name (usr_id sender) (usr_full_name sender) message_text (db w))
      with (with_inbound env chat sender message_text chat_name (S (clock w)) (db w)).
    rewrite fetch_instructions_with_inbound.
    fold (request_messages env chat sender message_text (db w)).
    rewrite Hans.
    unfold bind at 1. unfold reply_text at 1, awaited at 1.
    cbn [db clock trace]. rewrite H4.
    apply HP. reflexivity. }
  split.
  - intros H5. apply Hcommon. intros w5 ->. run_ops. rewrite H5.
    rewrite <- !app_assoc. destruct (cancels env (S (S (S (S (S (clock w)))))));
      reflexivity.
  - intros H5 H6. apply Hcommon. intros w5 ->. run_ops. rewrite H5.
    cbn [db clock trace fst snd]. rewrite H6.
    rewrite <- !app_assoc. reflexivity.
Qed.

(** X17.  A failure after the reply went out.  When everything up to the
    sending of the answer succeeds and then [get_me] raises an [Exception],
    or [get_me] succeeds and the writing of the reply row raises, the chat
    receives two replies, the answer and then the error text, and the answer
    is not in the history: only the inbound row was added.  When [get_me] is
    cancelled instead, the cancellation leaves [handle_message]: the answer
    stays the only reply and is not in the history either. *)
Theorem failure_after_reply (env : Env) (chat : Chat) (sender : User)
    (message_text answer : str) (w : World) :
  message_text <> [] -> usr_id sender <> bot_id (bot env) ->
  authorized chat sender (db w) = true ->
  addressed env chat message_text = true ->
  postprocess
    (ollama_content env (request_messages env chat sender message_text (db w)))
    = Answer answer ->
  (forall k, (k <= 5)%nat -> raises env (k + clock w) = false) ->
  let update := text_update chat sender message_text in
  let stored := with_inbound env chat sender message_text
                  (chat_name_of chat sender) (2 + clock w) (db w) in
  let done := [auth_event chat sender;
               DbGetHistory (c_id chat) (history_limit env);
               DbStoreMessage (c_id chat) (usr_id sender) message_text;
               DbFetchInstructions (c_id chat);
               OllamaChat (request_messages env chat sender message_text (db w));
               ReplyText answer] in
  (raises env (6 + clock w) = true -> cancels env (6 + clock w) = false ->
   raises env (7 + clock w) = false -> raises env (8 + clock w) = false ->
     handle_message env update w =
       (Ok tt,
        {| db := stored; clock := 9 + clock w;
           trace := trace w ++ done ++
                      [DbGetSetting (lit "internal_error_message");
                       ReplyText (error_text (db w))] |})) /\
  (raises env (6 + clock w) = false -> raises env (7 + clock w) = true ->
   raises env (8 + clock w) = false -> raises env (9 + clock w) = false ->
     handle_message env update w =
       (Ok tt,
        {| db := stored; clock := 10 + clock w;
           trace := trace w ++ done ++
                      [GetMe; DbGetSetting (lit "internal_error_message");
                       ReplyText (error_text (db w))] |})) /\
  (raises env (6 + clock w) = true -> cancels env (6 + clock w) = true ->
     handle_message env update w =
       (Cancelled,
        {| db := stored; clock := 7 + clock w; trace := trace w ++ done |})).
Proof.
  intros Ht Hs Hauth Haddr Hans Hok update stored done. subst update stored done.
  rewrite handle_message_authorized
    by (try assumption; apply (Hok 0%nat); lia).
  set (w1 := {| db := db w; clock := S (clock w);
                trace := trace w ++ [auth_event chat sender] |}).
  assert (Hok1 : forall k, (k <= 4)%nat -> raises env (k + clock w1) = false).
  { intros k Hk. cbn [clock w1]. rewrite Nat.add_succ_r. apply (Hok (S k)). lia. }
  destruct (pipeline_fails_after_reply env chat sender message_text
              (chat_name_of chat sender) answer w1 Haddr Hans Hok1) as (Hme & Hst).
  cbn [Nat.add clock db trace w1] in *.
  unfold guarded_pipeline, try_except. split; [|split].
  - intros H6 Hc H7 H8. rewrite (Hme H6), Hc.
    rewrite on_error_ok by assumption. cbn [db clock trace Nat.add].
    rewrite <- !app_assoc. reflexivity.
  - intros H6 H7 H8 H9. rewrite (Hst H6 H7).
    rewrite on_error_ok by assumption. cbn [db clock trace Nat.add].
    rewrite <- !app_assoc. reflexivity.
  - intros H6 Hc. rewrite (Hme H6), Hc.
    rewrite <- !app_assoc. reflexivity.
Qed.

Lemma failure_after_reply_witness :
  let r := handle_message (Sample.env_failing 6)
             (text_update Sample.group5 Sample.alice (lit "@tbot hi"))
             (Sample.world_of Sample.db_open) in
  replies (trace (snd r)) = [lit "Hello!"; INTERNAL_ERROR] /\
  length (DatabaseManager.conversation_history (db (snd r))) = 3%nat.
Proof.
  assert (Ht : lit "@tbot hi" <> []) by discriminate.
  assert (Hs : usr_id Sample.alice <> bot_id (bot (Sample.env_failing 6)))
    by discriminate.
  assert (Hok : forall k, (k <= 5)%nat ->
                  raises (Sample.env_failing 6)
                    (k + clock (Sample.world_of Sample.db_open)) = false).
  { intros k Hk. simpl. rewrite Nat.add_0_r. apply Nat.eqb_neq. lia. }
  destruct (failure_after_reply (Sample.env_failing 6) Sample.group5 Sample.alice
              (lit "@tbot hi") (lit "Hello!") (Sample.world_of Sample.db_open)
              Ht Hs eq_refl eq_refl eq_refl Hok) as (H & _).
  cbv zeta. rewrite (H eq_refl eq_refl eq_refl eq_refl). split; reflexivity.
Defined.

(** Reading a chat's history after a run of stores for it. *)
Lemma get_history_after_stores (db : DatabaseManager.Database) (chat limit : Z)
    (sent : list DatabaseManager.HistoryEntry) :
  DatabaseManager.rowid_order (DatabaseManager.conversation_history db) ->
  (forall e, In e sent -> DatabaseManager.chat_id e = chat) ->
  (Z.of_nat (length sent) <= limit)%Z ->
  DatabaseManager.get_conversation_history chat limit
    (DatabaseManager.store_messages chat sent db) =
  DatabaseManager.get_conversation_history chat (limit - Z.of_nat (length sent)) db
    ++ sent.
Proof.
  intros Hord Hchat Hlim.
  rewrite get_conversation_history_suffix
    by (try apply rowid_order_store_messages; try assumption; lia).
  rewrite (get_conversation_history_suffix chat _ db) by (try assumption; lia).
  unfold DatabaseManager.rows_of_chat.
  destruct (store_messages_rows chat sent db) as (rows & -> & Hmap & _ & _).
  rewrite filter_app, (rows_all_of_chat chat rows sent Hmap).
  assert (Hn : length rows = length sent).
  { apply (f_equal (@length _)) in Hmap. rewrite !length_map in Hmap. exact Hmap. }
  rewrite length_app, skipn_app.
  set (old := filter (fun r => (DatabaseManager.h_chat_id r =? chat)%Z)
                (DatabaseManager.conversation_history db)).
  replace (length old + length rows - Z.to_nat limit - length old)%nat
    with 0%nat by lia.
  replace (length old + length rows - Z.to_nat limit)%nat
    with (length old - Z.to_nat (limit - Z.of_nat (length sent)))%nat by lia.
  simpl skipn. rewrite map_app, Hmap, (filed_under_id chat sent Hchat).
  reflexivity.
Qed.

(** X18.  Conversation memory.  After an answered turn in a chat (no
    operation failing, table in rowid order, history limit at least 2), the
    turn sequence of the next request in that chat ends with the exchange just
    made: the sender's message as a ["user"] turn prefixed with the sender's
    name, then the answer as an ["assistant"] turn, then the new prompt. *)
Theorem next_request_remembers_turn (env : Env) (chat : Chat) (sender : User)
    (message_text answer : str) (w : World) :
  no_raise env ->
  message_text <> [] -> usr_id sender <> bot_id (bot env) ->
  authorized chat sender (db w) = true ->
  addressed env chat message_text = true ->
  postprocess
    (ollama_content env (request_messages env chat sender message_text (db w)))
    = Answer answer ->
  DatabaseManager.rowid_order (DatabaseManager.conversation_history (db w)) ->
  (2 <= history_limit env)%Z ->
  let after := db (snd (handle_message env
                          (text_update chat sender message_text) w)) in
  forall next_sender next_text,
    request_messages env chat next_sender next_text after =
    map (history_turn env)
      (DatabaseManager.get_conversation_history (c_id chat)
         (history_limit env - 2) (db w))
    ++ [ {| role := lit "user";
            content := usr_full_name sender ++ lit ": " ++ message_text |};
         {| role := lit "assistant"; content := answer |};
         {| role := lit "user";
            content :=
              compose_prompt
                (DatabaseManager.fetch_instructions_for_group (c_id chat) (db w))
                next_sender next_text |} ].
Proof.
  intros Hno Ht Hs Hauth Haddr Hans Hord Hlim after next_sender next_text.
  subst after.
  rewrite handle_message_authorized by (try assumption; apply Hno).
  erewrite guarded_pipeline_ok;
    [|apply (pipeline_answers _ _ _ _ _ answer);
      [assumption | apply orb_true_iff; exact Haddr | exact Hans]].
  cbn [snd db clock].
  change (DatabaseManager.store_message (utc_now env (6 + S (clock w))) (c_id chat)
            (chat_name_of chat sender) (bot_id (bot env)) (bot_display_name env) answer
            (with_inbound env chat sender message_text (chat_name_of chat sender)
               (S (S (clock w))) (db w)))
    with (DatabaseManager.store_messages (c_id chat)
            [inbound_entry env chat sender message_text (chat_name_of chat sender)
               (S (S (clock w)));
             outbound_entry env chat (chat_name_of chat sender) answer
               (6 + S (clock w))]
            (db w)).
  unfold request_messages, assemble_context.
  rewrite assemble_context_from. cbn [app].
  rewrite get_history_after_stores;
    [|exact Hord | intros e [<-|[<-|[]]]; reflexivity | simpl; lia].
  destruct (store_messages_other_tables (c_id chat)
              [inbound_entry env chat sender message_text (chat_name_of chat sender)
                 (S (S (clock w)));
               outbound_entry env chat (chat_name_of chat sender) answer
                 (6 + S (clock w))] (db w)) as (_ & _ & _ & Hinstr).
  unfold DatabaseManager.fetch_instructions_for_group,
    DatabaseManager._get_default_instructions. rewrite Hinstr.
  rewrite map_app, <- app_assoc. cbn [length Z.of_nat map app].
  unfold history_turn at 2 3. cbn [inbound_entry outbound_entry
    DatabaseManager.user_id DatabaseManager.message DatabaseManager.full_name].
  apply Z.eqb_neq in Hs. rewrite Hs, Z.eqb_refl. reflexivity.
Qed.

Lemma next_request_remembers_turn_witness :
  request_messages Sample.env_ok Sample.group5 Sample.alice (lit "@tbot more")
    (db (snd (handle_message Sample.env_ok
                (text_update Sample.group5 Sample.alice (lit "@tbot hi"))
                (Sample.world_of Sample.db_open))))
  = [ {| role := lit "user"; content := lit "Bob: @tbot ping" |};
      {| role := lit "assistant"; content := lit "pong" |};
      {| role := lit "user"; content := lit "Alice: @tbot hi" |};
      {| role := lit "assistant"; content := lit "Hello!" |};
      {| role := lit "user";
         content := lit "Be brief." ++ lit (String "010" (String "010" EmptyString))
                      ++ lit "Alice: @tbot more" |} ].
Proof.
  assert (Hno : no_raise Sample.env_ok) by (intros n; reflexivity).
  assert (Ht : lit "@tbot hi" <> []) by discriminate.
  assert (Hs : usr_id Sample.alice <> bot_id (bot Sample.env_ok)) by discriminate.
  assert (Hord : DatabaseManager.rowid_order
                   (DatabaseManager.conversation_history
                      (db (Sample.world_of Sample.db_open)))).
  { unfold DatabaseManager.rowid_order. simpl. repeat constructor. }
  rewrite (next_request_remembers_turn Sample.env_ok Sample.group5 Sample.alice
             (lit "@tbot hi") (lit "Hello!") (Sample.world_of Sample.db_open)
             Hno Ht Hs eq_refl eq_refl eq_refl Hord ltac:(simpl; lia)).
  reflexivity.
Defined.

(** X19.  On a newly created database nobody is authorized: with no
    operation failing, every private message is answered with the built-in
    denial text, every other message is dropped without a reply, and in both
    cases nothing is stored and the backend is not called. *)
Theorem new_database_denies (env : Env) (chat : Chat) (sender : User)
    (message_text : str) (w : World) :
  no_raise env ->
  message_text <> [] -> usr_id sender <> bot_id (bot env) ->
  db w = DatabaseManager._create_tables None ->
  let w' := snd (handle_message env (text_update chat sender message_text) w) in
  fst (handle_message env (text_update chat sender message_text) w) = Ok tt /\
  db w' = db w /\
  trace w' =
    trace w ++
      (if is_private chat
       then [DbIsUserAllowed (usr_id sender);
             DbGetSetting (lit "private_chat_disallowed_message");
             ReplyText PRIVATE_CHAT_DISALLOWED]
       else [DbIsGroupAllowed (c_id chat)]).
Proof.
  intros Hno Ht Hs Hdb w'. subst w'.
  rewrite (handle_message_start _ _ _ _ Ht Hs).
  destruct (is_private chat); run_ops; rewrite Hno, Hdb;
    cbn [DatabaseManager._create_tables DatabaseManager.is_user_allowed
         DatabaseManager.is_group_allowed DatabaseManager.empty_database
         DatabaseManager.allowed_users DatabaseManager.allowed_groups
         filter map DatabaseManager.fetchone hd_error negb db clock trace fst snd].
  - rewrite Hno. cbn [db clock trace fst snd]. rewrite Hno.
    cbn [db clock trace fst snd]. rewrite <- !app_assoc.
    repeat split.
  - repeat split.
Qed.

Lemma new_database_denies_witness :
  replies
    (trace (snd (handle_message Sample.env_ok
                   (text_update Sample.private1 Sample.alice (lit "hello"))
                   (Sample.world_of (DatabaseManager._create_tables None)))))
  = [PRIVATE_CHAT_DISALLOWED].
Proof.
  assert (Hno : no_raise Sample.env_ok) by (intros n; reflexivity).
  assert (Ht : lit "hello" <> []) by discriminate.
  assert (Hs : usr_id Sample.alice <> bot_id (bot Sample.env_ok)) by discriminate.
  destruct (new_database_denies Sample.env_ok Sample.private1 Sample.alice
              (lit "hello") (Sample.world_of (DatabaseManager._create_tables None))
              Hno Ht Hs eq_refl) as (_ & _ & H).
  rewrite H. reflexivity.
Defined.

(** X20.  A negative history limit switches the window off: on a table in
    rowid order the whole history of the chat comes back, oldest first. *)
Theorem negative_limit_reads_all (db : DatabaseManager.Database) (chat limit : Z) :
  DatabaseManager.rowid_order (DatabaseManager.conversation_history db) ->
  (limit < 0)%Z ->
  DatabaseManager.get_conversation_history chat limit db =
  map DatabaseManager.entry_of_row (DatabaseManager.rows_of_chat chat db).
Proof.
  intros Hord Hneg. unfold DatabaseManager.get_conversation_history.
  fold (DatabaseManager.rows_of_chat chat db).
  assert (Hs : DatabaseManager.rowid_order (DatabaseManager.rows_of_chat chat db))
    by (apply rowid_order_filter, Hord).
  rewrite (order_by_id_desc_rev _ Hs).
  unfold DatabaseManager.sql_limit. rewrite (proj2 (Z.ltb_lt _ _) Hneg).
  rewrite <- map_rev, rev_involutive, map_map.
  apply map_ext_in. intros r Hr. apply history_dict_select.
  unfold DatabaseManager.rows_of_chat in Hr. apply filter_In in Hr. destruct Hr as [_ Hr]. apply Z.eqb_eq, Hr.
Qed.

Lemma negative_limit_reads_all_witness :
  length (DatabaseManager.get_conversation_history 5 (-1) Sample.db_open) = 2%nat.
Proof.
  rewrite (negative_limit_reads_all Sample.db_open 5 (-1)).
  - reflexivity.
  - unfold DatabaseManager.rowid_order. simpl. repeat constructor.
  - reflexivity.
Defined.

(** X21.  The display name stored with the bot's replies: the first name
    alone when there is no last name or an empty one, the last name alone when
    the first name is empty, and otherwise both with one space between. *)
Theorem bot_display_name_parts (env : Env) :
  let first := bot_first_name (bot env) in
  (truthy (bot_last_name (bot env)) = None -> bot_display_name env = first) /\
  (forall last, truthy (bot_last_name (bot env)) = Some last ->
                first <> [] -> bot_display_name env = first ++ lit " " ++ last) /\
  (forall last, truthy (bot_last_name (bot env)) = Some last ->
                first = [] -> bot_display_name env = last).
Proof.
  unfold bot_display_name. cbn [flat_map].
  destruct (bot_first_name (bot env)) as [|c first];
    destruct (truthy (bot_last_name (bot env))) as [last|];
    cbn [truthy app join]; repeat split; try discriminate; try congruence;
    try (intros l [= <-] H; first [congruence | rewrite ?app_nil_r; reflexivity]).
Qed.

(** ** The option bag of [main] *)

Section OptionBag.

Variable Float : Type.

Lemma dict_get_set_same (key : str) (value : Main.Value Float) (d : Main.dict Float) :
  Main.dict_get Float key (Main.dict_set Float key value d) = Some value.
Proof.
  induction d as [|[k v] d IH]; simpl.
  - rewrite str_eqb_refl. reflexivity.
  - destruct (str_eqb k key) eqn:E; simpl; rewrite E; [reflexivity | exact IH].
Qed.

Lemma dict_get_set_other (key other : str) (value : Main.Value Float) (d : Main.dict Float) :
  other <> key ->
  Main.dict_get Float other (Main.dict_set Float key value d) = Main.dict_get Float other d.
Proof.
  intros Hne. induction d as [|[k v] d IH]; simpl.
  - destruct (str_eqb key other) eqn:E; [|reflexivity].
    apply str_eqb_eq in E. congruence.
  - destruct (str_eqb k key) eqn:E; simpl.
    + apply str_eqb_eq in E. subst k.
      destruct (str_eqb key other) eqn:E2; [|reflexivity].
      apply str_eqb_eq in E2. congruence.
    + rewrite IH. reflexivity.
Qed.

Lemma options_loop_other (args : Main.Namespace Float) (names : list str) :
  forall (d : Main.dict Float) (key : str),
    ~ In key names ->
    Main.dict_get Float key
      (fold_left
         (fun ollama_options opt =>
            match Main.getattr Float args opt with
            | Some value => Main.dict_set Float opt value ollama_options
            | None => ollama_options
            end) names d) = Main.dict_get Float key d.
Proof.
  induction names as [|n names IH]; intros d key Hk; simpl; [reflexivity|].
  rewrite IH by (intros H; apply Hk; right; exact H).
  destruct (Main.getattr Float args n); [|reflexivity].
  apply dict_get_set_other. intros ->. apply Hk. left; reflexivity.
Qed.

Lemma options_loop_named (args : Main.Namespace Float) (names : list str) :
  NoDup names ->
  forall (d : Main.dict Float) (opt : str),
    In opt names ->
    Main.dict_get Float opt
      (fold_left
         (fun ollama_options opt =>
            match Main.getattr Float args opt with
            | Some value => Main.dict_set Float opt value ollama_options
            | None => ollama_options
            end) names d) =
    match Main.getattr Float args opt with
    | Some value => Some value
    | None => Main.dict_get Float opt d
    end.
Proof.
  induction 1 as [|n names Hn Hnd IH]; intros d opt Hin; [destruct Hin|].
  simpl. destruct Hin as [->|Hin].
  - rewrite options_loop_other by exact Hn.
    destruct (Main.getattr Float args opt); [apply dict_get_set_same | reflexivity].
  - rewrite (IH _ opt Hin).
    destruct (Main.getattr Float args opt); [reflexivity|].
    destruct (Main.getattr Float args n); [|reflexivity].
    apply dict_get_set_other. intros ->. apply Hn, Hin.
Qed.

Lemma option_names_distinct :
  NoDup Main.OPTION_NAMES /\ ~ In (lit "do_sample") Main.OPTION_NAMES.
Proof.
  split.
  - unfold Main.OPTION_NAMES.
    repeat (constructor; [simpl; intuition discriminate|]). constructor.
  - simpl. intuition discriminate.
Qed.

(** X22.  The option bag [main] hands to the bot holds exactly what was
    configured: each of the seven named options is present with its value
    unchanged when it was given and absent when it was not; ["do_sample"] is
    present, as [True], only when the flag is set; no other key is present. *)
Theorem ollama_options_configured (args : Main.Namespace Float) :
  let options := Main.build_ollama_options Float args in
  (forall opt, In opt Main.OPTION_NAMES ->
               Main.dict_get Float opt options = Main.getattr Float args opt) /\
  Main.dict_get Float (lit "do_sample") options =
    (if Main.do_sample Float args then Some (Main.VBool Float true) else None) /\
  (forall key, ~ In key Main.OPTION_NAMES -> key <> lit "do_sample" ->
               Main.dict_get Float key options = None).
Proof.
  destruct option_names_distinct as [Hnd Hds].
  unfold Main.build_ollama_options. cbv zeta. split; [|split].
  - intros opt Hin.
    assert (Hne : opt <> lit "do_sample") by (intros ->; apply Hds, Hin).
    destruct (Main.do_sample Float args).
    + rewrite dict_get_set_other by exact Hne.
      rewrite (options_loop_named args _ Hnd _ opt Hin).
      destruct (Main.getattr Float args opt); reflexivity.
    + rewrite (options_loop_named args _ Hnd _ opt Hin).
      destruct (Main.getattr Float args opt); reflexivity.
  - destruct (Main.do_sample Float args).
    + apply dict_get_set_same.
    + rewrite options_loop_other by exact Hds. reflexivity.
  - intros key Hk Hne. destruct (Main.do_sample Float args).
    + rewrite dict_get_set_other by exact Hne.
      rewrite options_loop_other by exact Hk. reflexivity.
    + rewrite options_loop_other by exact Hk. reflexivity.
Qed.

End OptionBag.

(** ** What a run never does *)

(** X23.  Post-processing is idempotent on its answers: an answer put
    through it again comes back unchanged. *)
Theorem postprocess_idempotent (raw answer : str) :
  postprocess raw = Answer answer -> postprocess answer = Answer answer.
Proof.
  unfold postprocess.
  destruct (str_eqb (remove_think (strip raw)) SKIP_TOKEN) eqn:E; [discriminate|].
  intros [= <-].
  assert (Ht : trimmed (remove_think (strip raw)))
    by apply remove_think_trimmed, strip_trimmed.
  rewrite (strip_fixed _ Ht).
  rewrite (remove_think_absent _ (remove_think_clean (strip raw))).
  rewrite E. reflexivity.
Qed.

Lemma postprocess_idempotent_witness :
  postprocess (lit "Hello!") = Answer (lit "Hello!").
Proof.
  apply (postprocess_idempotent (lit "<think>x</think> Hello! ")). reflexivity.
Defined.

(** X24.  A message that the check finds unauthorized never reaches the
    history or the backend, whatever fails afterwards: the database is
    unchanged, no inference call is made, and outside private chats no reply
    is sent. *)
Theorem unauthorized_has_no_effect (env : Env) (chat : Chat) (sender : User)
    (message_text : str) (w : World) :
  message_text <> [] -> usr_id sender <> bot_id (bot env) ->
  authorized chat sender (db w) = false ->
  let w' := snd (handle_message env (text_update chat sender message_text) w) in
  db w' = db w /\
  inference_calls (trace w') = inference_calls (trace w) /\
  (is_private chat = false -> replies (trace w') = replies (trace w)).
Proof.
  intros Ht Hs Hauth w'. subst w'. unfold authorized in Hauth.
  rewrite (handle_message_start _ _ _ _ Ht Hs).
  destruct (is_private chat); run_ops.
  - destruct (raises env (clock w)); [repeat split; discriminate|].
    rewrite Hauth. cbn [negb db clock trace fst snd].
    destruct (raises env (S (clock w))); cbn [db clock trace fst snd snd].
    + repeat split; try discriminate.
      unfold inference_calls. rewrite flat_map_app. simpl. apply app_nil_r.
    + destruct (raises env (S (S (clock w)))); cbn [db clock trace fst snd];
        repeat split; try discriminate;
        unfold inference_calls; rewrite !flat_map_app; simpl;
        rewrite !app_nil_r; reflexivity.
  - destruct (raises env (clock w)); [repeat split|].
    rewrite Hauth. cbn [negb ret snd db trace]. repeat split.
    + unfold inference_calls. rewrite flat_map_app. simpl. apply app_nil_r.
    + intros _. unfold replies. rewrite flat_map_app. simpl. apply app_nil_r.
Qed.

Lemma unauthorized_has_no_effect_witness :
  db (snd (handle_message (Sample.env_failing 2)
             (text_update Sample.private1
                {| usr_id := 7; usr_full_name := lit "Eve" |} (lit "hi"))
             (Sample.world_of Sample.db_open))) = Sample.db_open.
Proof.
  apply (unauthorized_has_no_effect (Sample.env_failing 2) Sample.private1
           {| usr_id := 7; usr_full_name := lit "Eve" |} (lit "hi")
           (Sample.world_of Sample.db_open)).
  - discriminate.
  - discriminate.
  - reflexivity.
Defined.

(** The effects of the [try] body, whatever fails: at most one inference call
    and at most one reply, at most seven operations; the inference call is the
    fourth of them, and when that one raises none is made and nothing
    follows. *)
Lemma pipeline_effects (env : Env) (chat : Chat) (sender : User)
    (message_text chat_name : str) (w w' : World) (r : Result unit) :
  pipeline env chat sender message_text chat_name w = (r, w') ->
  exists events,
    trace w' = trace w ++ events /\
    (length (inference_calls events) <= 1)%nat /\
    (length (replies events) <= 1)%nat /\
    (clock w' <= 7 + clock w)%nat /\
    (raises env (3 + clock w) = true ->
     inference_calls events = [] /\ (clock w' <= 4 + clock w)%nat).
Proof.
  run_ops. intros H. split_run;
    rewrite <- ?app_assoc; cbn [app];
    (eexists; split; [first [reflexivity | symmetry; apply app_nil_r]|]);
    (split; [simpl; lia|]); (split; [simpl; lia|]); (split; [simpl; lia|]);
    cbn [Nat.add]; intros Hr;
    first [congruence | split; [reflexivity | simpl; lia]].
Qed.

Lemma on_error_effects (env : Env) (w w' : World) (r : Result unit) :
  on_error env w = (r, w') ->
  exists events,
    trace w' = trace w ++ events /\
    inference_calls events = [] /\
    (length (replies events) <= 1)%nat /\
    (clock w' <= 2 + clock w)%nat.
Proof.
  run_ops. intros H. split_run;
    rewrite <- ?app_assoc; cbn [app];
    (eexists; split; [first [reflexivity | symmetry; apply app_nil_r]|]);
    (split; [reflexivity|]); split; simpl; lia.
Qed.

Lemma guarded_pipeline_effects (env : Env) (chat : Chat) (sender : User)
    (message_text chat_name : str) (w w' : World) (r : Result unit) :
  guarded_pipeline env chat sender message_text chat_name w = (r, w') ->
  exists events,
    trace w' = trace w ++ events /\
    (length (inference_calls events) <= 1)%nat /\
    (length (replies events) <= 2)%nat /\
    (clock w' <= 9 + clock w)%nat /\
    (raises env (3 + clock w) = true ->
     inference_calls events = [] /\ (clock w' <= 6 + clock w)%nat).
Proof.
  unfold guarded_pipeline, try_except.
  destruct (pipeline env chat sender message_text chat_name w) as [[[]| |] w1] eqn:Hp;
    intros H; apply pipeline_effects in Hp;
    destruct Hp as (ev & Htr & Hi & Hr & Hc & Hf);
    [injection H as <- <-; exists ev; repeat split;
       [exact Htr | exact Hi | lia | lia | apply Hf, H | apply Hf in H; lia]
    | | injection H as <- <-; exists ev; repeat split;
       [exact Htr | exact Hi | lia | lia | apply Hf, H | apply Hf in H; lia] ].
  apply on_error_effects in H. destruct H as (ev2 & Htr2 & Hi2 & Hr2 & Hc2).
  exists (ev ++ ev2). rewrite Htr2, Htr, app_assoc. split; [reflexivity|].
  unfold inference_calls, replies in *. rewrite !flat_map_app, !length_app.
  rewrite Hi2. simpl. repeat split; try lia.
  - rewrite app_nil_r. apply Hf, H.
  - apply Hf in H. lia.
Qed.

(** X25.  One event costs at most one inference call, at most two replies (an
    answer and an error text) and at most ten operations, whatever the event
    and whatever fails.  The inference call, when a run makes it, is the
    run's fifth operation; when that operation raises, the run contains no
    inference call at all and at most two operations follow the failed one
    (the handler's): a failed call is not made again. *)
Theorem handle_message_bounded_effects (env : Env) (update : Update) (w : World) :
  let w' := snd (handle_message env update w) in
  exists events,
    trace w' = trace w ++ events /\
    (length (inference_calls events) <= 1)%nat /\
    (length (replies events) <= 2)%nat /\
    (clock w' <= 10 + clock w)%nat /\
    (raises env (4 + clock w) = true ->
     inference_calls events = [] /\ (clock w' <= 7 + clock w)%nat).
Proof.
  intros w'. subst w'.
  destruct (handle_message env update w) as [r w'] eqn:Hrun. cbn [snd].
  assert (Hnone : trace w' = trace w -> (clock w' <= 1 + clock w)%nat ->
            exists events,
              trace w' = trace w ++ events /\
              (length (inference_calls events) <= 1)%nat /\
              (length (replies events) <= 2)%nat /\
              (clock w' <= 10 + clock w)%nat /\
              (raises env (4 + clock w) = true ->
               inference_calls events = [] /\ (clock w' <= 7 + clock w)%nat)).
  { intros H0 Hc. exists []. rewrite H0, app_nil_r.
    repeat split; simpl; lia. }
  assert (Hguard : forall chat sender message_text chat_name ev,
            inference_calls [ev] = [] -> replies [ev] = [] ->
            guarded_pipeline env chat sender message_text chat_name
              {| db := db w; clock := S (clock w); trace := trace w ++ [ev] |}
              = (r, w') ->
            exists events,
              trace w' = trace w ++ events /\
              (length (inference_calls events) <= 1)%nat /\
              (length (replies events) <= 2)%nat /\
              (clock w' <= 10 + clock w)%nat /\
              (raises env (4 + clock w) = true ->
               inference_calls events = [] /\ (clock w' <= 7 + clock w)%nat)).
  { intros chat sender message_text chat_name ev Hi Hr Hg.
    apply guarded_pipeline_effects in Hg.
    destruct Hg as (evs & Htr & Hi2 & Hr2 & Hc & Hf).
    cbn [trace clock] in *. exists (ev :: evs). rewrite Htr, <- app_assoc.
    split; [reflexivity|].
    change (ev :: evs) with ([ev] ++ evs).
    unfold inference_calls, replies in *. rewrite !flat_map_app, !length_app.
    rewrite Hi, Hr. cbn [app length Nat.add] in *.
    repeat split; try lia.
    - apply Hf, H.
    - apply Hf in H. lia. }
  revert Hrun. unfold handle_message.
  destruct (effective_chat update) as [chat|];
    [|intros [= <- <-]; apply Hnone; [reflexivity | simpl; lia]].
  destruct (effective_message update) as [message|];
    [|intros [= <- <-]; apply Hnone; [reflexivity | simpl; lia]].
  destruct (truthy (text message)) as [message_text|];
    [|intros [= <- <-]; apply Hnone; [reflexivity | simpl; lia]].
  destruct (from_user message) as [sender|];
    [|intros [= <- <-]; apply Hnone; [reflexivity | simpl; lia]].
  destruct (usr_id sender =? bot_id (bot env))%Z;
    [intros [= <- <-]; apply Hnone; [reflexivity | simpl; lia]|].
  clear Hnone.
  destruct (is_private chat).
  - unfold bind at 1. unfold db_read at 1, external.
    destruct (raises env (clock w)).
    { intros [= <- <-]. exists []. cbn [trace clock]. rewrite app_nil_r.
      repeat split; simpl; lia. }
    destruct (DatabaseManager.is_user_allowed (usr_id sender) (db w)); cbn [negb].
    + apply Hguard; reflexivity.
    + run_ops. intros H. split_run;
        rewrite <- ?app_assoc; cbn [app];
        (eexists; split; [reflexivity|]);
        repeat split; simpl; lia.
  - unfold bind at 1. unfold db_read at 1, external.
    destruct (raises env (clock w)).
    { intros [= <- <-]. exists []. cbn [trace clock]. rewrite app_nil_r.
      repeat split; simpl; lia. }
    destruct (DatabaseManager.is_group_allowed (c_id chat) (db w)); cbn [negb].
    + apply Hguard; reflexivity.
    + unfold ret. intros [= <- <-]. cbn [trace clock].
      eexists. split; [reflexivity|].
      repeat split; simpl; lia.
Qed.

Lemma handle_message_bounded_effects_witness :
  let w' := snd (handle_message (Sample.env_failing 4)
                   (text_update Sample.group5 Sample.alice (lit "@tbot hi"))
                   (Sample.world_of Sample.db_open)) in
  inference_calls (trace w') = [] /\ clock w' = 7%nat.
Proof.
  destruct (handle_message_bounded_effects (Sample.env_failing 4)
              (text_update Sample.group5 Sample.alice (lit "@tbot hi"))
              (Sample.world_of Sample.db_open)) as (events & Htr & _ & _ & _ & Hf).
  cbv zeta. destruct (Hf eq_refl) as (Hnone & _).
  rewrite Htr. unfold inference_calls in *. rewrite flat_map_app, Hnone.
  split; reflexivity.
Defined.
